(** * The residual classifier and the class-guided U-Net wrapper

    A shallow embedding of [src/models/classifying_resnet.py] and
    [src/models/class_guided_unet.py].

    A tensor is its shape (Python ints, here [Z]) together with its
    entries in row-major order, for image batches in the layout
    (N, C, H, W) or single images (C, H, W).  Entries are rationals,
    which include every finite float32.  The learned layers
    (convolution, batch normalisation, linear) have the shape rules of
    the tensor library, while the numbers they produce are left to a
    runtime record that every statement quantifies over; so is the
    mean of the average pooling, the one operation without weights
    that rounds, with the exact mean and a single-precision mean as
    instances.  The other layers without weights (ReLU, max pooling,
    flatten, view, in-place addition) are defined in full: they select
    or compare entries and do not round, except the addition, which is
    written without rounding and on whose sums no claim depends. *)

From Stdlib Require Import ZArith QArith Qcanon List Lia.
From stdpp Require Import base option list gmap numbers.

Local Open Scope Z_scope.

(** ** The tensor library *)

Module Torch.

Record Tensor := mkTensor { shape : list Z; data : list Qc }.

(** Number of entries of a tensor of the given shape. *)
Definition numel (s : list Z) : Z := foldr Z.mul 1 s.

(** Extent of the output of a sliding window of size [k], step [s] and
    zero padding [p] over [n] positions: [(n + 2p - k) // s + 1].  The
    library rejects a window larger than the padded input and a step
    that is not positive. *)
Definition out_size (n k s p : Z) : option Z :=
  if decide (1 ≤ k ∧ 1 ≤ s ∧ 0 ≤ p ∧ k ≤ n + 2 * p)
  then Some ((n + 2 * p - k) `div` s + 1)
  else None.

(** [nn.Conv2d(in_channels, out_channels, kernel_size, stride, padding, bias)] *)
Record Conv2d := mkConv2d {
  in_channels : Z;
  out_channels : Z;
  kernel_size : Z;
  stride : Z;
  padding : Z;
  bias : bool
}.

(** [nn.MaxPool2d(kernel_size, stride, padding)] *)
Record MaxPool2d := mkMaxPool2d {
  pool_kernel_size : Z;
  pool_stride : Z;
  pool_padding : Z
}.

(** [nn.Linear(in_features, out_features)] *)
Record Linear := mkLinear {
  in_features : Z;
  out_features : Z
}.

(** What a forward pass takes from outside the two source files: the
    mode the modules are in ([self.training], which [train()] and
    [eval()] set on a module and all its children, and which is [True]
    after construction) and the numbers computed by the layers that
    carry weights, given the layer and its input, and by the mean of
    the average pooling, whose rounding and order of accumulation are
    the library's.  No statement below depends on what the numbers of
    the weighted layers are. *)
Record Runtime := mkRuntime {
  training : bool;
  conv_data : Conv2d → Tensor → list Qc;
  bn_data : Z → Tensor → list Qc;
  linear_data : Linear → Tensor → list Qc;
  mean_data : list Qc → Qc
}.

(** The convolution and pooling layers take a batch of images
    (N, C, H, W) or a single image (C, H, W); a single image is
    processed as a batch of one and returned without the batch
    dimension. *)
Definition image_dims (s : list Z) : option (option Z * Z * Z * Z) :=
  match s with
  | [N; C; H; W] => Some (Some N, C, H, W)
  | [C; H; W] => Some (None, C, H, W)
  | _ => None
  end.

Definition image_shape (N : option Z) (C H W : Z) : list Z :=
  match N with
  | Some n => [n; C; H; W]
  | None => [C; H; W]
  end.

Definition batch_size (N : option Z) : Z := default 1 N.

(** The convolution needs a weight with at least one output channel. *)
Definition conv2d (rt : Runtime) (c : Conv2d) (x : Tensor) : option Tensor :=
  match image_dims (shape x) with
  | Some (N, C, H, W) =>
      if decide (C = in_channels c ∧ 1 ≤ out_channels c) then
        H' ← out_size H (kernel_size c) (stride c) (padding c);
        W' ← out_size W (kernel_size c) (stride c) (padding c);
        Some (mkTensor (image_shape N (out_channels c) H' W') (conv_data rt c x))
      else None
  | None => None
  end.

(** [nn.BatchNorm2d(num_features)].  In training mode the batch
    statistics need more than one value per channel: the library raises
    "Expected more than 1 value per channel when training" when
    [N * H * W = 1]. *)
Definition batch_norm2d (rt : Runtime) (num_features : Z) (x : Tensor)
  : option Tensor :=
  match shape x with
  | [N; C; H; W] =>
      if decide (C = num_features) then
        if training rt && bool_decide (N * H * W = 1) then None
        else Some (mkTensor [N; C; H; W] (bn_data rt num_features x))
      else None
  | _ => None
  end.

Definition linear (rt : Runtime) (l : Linear) (x : Tensor) : option Tensor :=
  match reverse (shape x) with
  | d :: lead =>
      if decide (d = in_features l)
      then Some (mkTensor (reverse (out_features l :: lead)) (linear_data rt l x))
      else None
  | [] => None
  end.

(** [F.relu]: [max(0, v)] on every entry. *)
Definition relu1 (v : Qc) : Qc := if decide (0 < v)%Qc then v else 0%Qc.

Definition relu (x : Tensor) : Tensor :=
  mkTensor (shape x) (relu1 <$> data x).

(** Entry of a flat buffer; positions outside the buffer read as zero. *)
Definition entry (d : list Qc) (i : Z) : Qc := default 0%Qc (d !! Z.to_nat i).

(** Flat position of entry [(n, c, h, w)] of a [(_, C, H, W)] tensor. *)
Definition offset4 (C H W n c h w : Z) : Z := ((n * C + c) * H + h) * W + w.

(** The output positions [(n, c, oh, ow)] in row-major order. *)
Definition positions4 (N C H W : Z) : list (Z * Z * Z * Z) :=
  n ← seqZ 0 N; c ← seqZ 0 C; h ← seqZ 0 H; w ← seqZ 0 W; [(n, c, h, w)].

(** Running maximum of the pooling kernel: it starts at minus infinity
    ([None]) and takes each entry that is larger. *)
Definition max_step (acc : option Qc) (v : Qc) : option Qc :=
  match acc with
  | None => Some v
  | Some m => Some (if decide (m < v)%Qc then v else m)
  end.

Definition window_max (vs : list Qc) : option Qc := foldl max_step None vs.

(** Flat positions of the input entries under the pooling window of the
    output entry [(n, c, oh, ow)]; padding positions are left out. *)
Definition pool_window (C H W k s p : Z) (pos : Z * Z * Z * Z) : list Z :=
  let '(n, c, oh, ow) := pos in
  kh ← seqZ 0 k; kw ← seqZ 0 k;
  let ih := oh * s - p + kh in
  let iw := ow * s - p + kw in
  if decide (0 ≤ ih < H ∧ 0 ≤ iw < W) then [offset4 C H W n c ih iw] else [].

Definition max_pool2d (m : MaxPool2d) (x : Tensor) : option Tensor :=
  let k := pool_kernel_size m in
  let s := pool_stride m in
  let p := pool_padding m in
  match image_dims (shape x) with
  | Some (N, C, H, W) =>
      if decide (2 * p ≤ k ∧ 1 ≤ H ∧ 1 ≤ W) then
        H' ← out_size H k s p;
        W' ← out_size W k s p;
        d ← mapM (λ pos, window_max (entry (data x) <$> pool_window C H W k s p pos))
                 (positions4 (batch_size N) C H' W');
        Some (mkTensor (image_shape N C H' W') d)
      else None
  | None => None
  end.

(** Bounds of the [i]-th of [o] adaptive windows over [n] positions:
    from [floor(i*n/o)] up to [ceil((i+1)*n/o)]. *)
Definition adaptive_start (n o i : Z) : Z := (i * n) `div` o.
Definition adaptive_end (n o i : Z) : Z := ((i + 1) * n + o - 1) `div` o.

Definition adaptive_window (C H W OH OW : Z) (pos : Z * Z * Z * Z) : list Z :=
  let '(n, c, oh, ow) := pos in
  h ← seqZ (adaptive_start H OH oh) (adaptive_end H OH oh - adaptive_start H OH oh);
  w ← seqZ (adaptive_start W OW ow) (adaptive_end W OW ow - adaptive_start W OW ow);
  [offset4 C H W n c h w].

Definition sum_list (vs : list Qc) : Qc := foldr Qcplus 0%Qc vs.

(** The mean in exact arithmetic. *)
Definition mean (vs : list Qc) : Qc :=
  (sum_list vs / Qc_of_Z (Z.of_nat (length vs)))%Qc.




(** [nn.AdaptiveAvgPool2d((OH, OW))] *)
Definition adaptive_avg_pool2d (rt : Runtime) (out : Z * Z) (x : Tensor)
  : option Tensor :=
  let '(OH, OW) := out in
  match image_dims (shape x) with
  | Some (N, C, H, W) =>
      if decide (1 ≤ OH ∧ 1 ≤ OW ∧ 1 ≤ H ∧ 1 ≤ W) then
        Some (mkTensor (image_shape N C OH OW)
                ((λ pos, mean_data rt
                           (entry (data x) <$> adaptive_window C H W OH OW pos))
                   <$> positions4 (batch_size N) C OH OW))
      else None
  | None => None
  end.

(** [torch.flatten(x, 1)] *)
Definition flatten1 (x : Tensor) : option Tensor :=
  match shape x with
  | N :: d :: rest => Some (mkTensor [N; numel (d :: rest)] (data x))
  | _ => None
  end.

(** [x.view] with the requested dimensions: at most one dimension may be [-1]; it is inferred
    from the number of entries. *)
Definition view (dims : list Z) (x : Tensor) : option Tensor :=
  let n := numel (shape x) in
  let known := numel (filter (λ d, d ≠ -1) dims) in
  if decide (Forall (λ d, -1 ≤ d) dims) then
    match length (filter (λ d, d = -1) dims) with
    | O => if decide (known = n) then Some (mkTensor dims (data x)) else None
    | S O =>
        if decide (known ≠ 0 ∧ n `mod` known = 0)
        then Some (mkTensor ((λ d, if decide (d = -1) then n `div` known else d) <$> dims)
                            (data x))
        else None
    | _ => None
    end
  else None.

(** Broadcasting of [other] onto the shape of [self], dimensions aligned
    from the right: [other] may not have more dimensions, and each of
    its dimensions equals the matching one of [self] or is 1. *)
Fixpoint broadcast_rev (self other : list Z) : bool :=
  match other, self with
  | [], _ => true
  | _ :: _, [] => false
  | o :: other', d :: self' =>
      bool_decide (o = d ∨ o = 1) && broadcast_rev self' other'
  end.

Definition broadcastable (self other : list Z) : bool :=
  broadcast_rev (reverse self) (reverse other).

(** Multi-index, last dimension first, of flat position [i]. *)
Fixpoint unravel_rev (rshape : list Z) (i : Z) : list Z :=
  match rshape with
  | [] => []
  | d :: ds => i `mod` d :: unravel_rev ds (i `div` d)
  end.

(** Flat position in [other] of the entry that broadcasts to the
    multi-index [idx] (both last dimension first). *)
Fixpoint bcast_offset_rev (rother idx : list Z) : Z :=
  match rother, idx with
  | o :: os, j :: js => (if decide (o = 1) then 0 else j) + o * bcast_offset_rev os js
  | _, _ => 0
  end.

(** [self += other] *)
Definition iadd (self other : Tensor) : option Tensor :=
  if broadcastable (shape self) (shape other) then
    Some (mkTensor (shape self)
            ((λ i, (entry (data self) i
                    + entry (data other)
                        (bcast_offset_rev (reverse (shape other))
                           (unravel_rev (reverse (shape self)) i)))%Qc)
               <$> seqZ 0 (numel (shape self))))
  else None.

End Torch.

Import Torch.

(** ** Modules of the network *)

(** The two kinds of layer the residual network puts in an
    [nn.Sequential]. *)
Inductive Layer :=
| LConv2d (c : Conv2d)
| LBatchNorm2d (num_features : Z).

(** [nn.Sequential]: the modules it was given when it was built, in
    order.  The arguments are unpacked from the caller's list at the
    call, so the container holds the elements the list had then. *)
Definition Sequential := list Layer.

Definition Layer_forward (rt : Runtime) (l : Layer) (x : Tensor) : option Tensor :=
  match l with
  | LConv2d c => conv2d rt c x
  | LBatchNorm2d n => batch_norm2d rt n x
  end.

Fixpoint Sequential_forward (rt : Runtime) (m : Sequential) (x : Tensor)
  : option Tensor :=
  match m with
  | [] => Some x
  | l :: m' => y ← Layer_forward rt l x; Sequential_forward rt m' y
  end.

Definition has_norm (m : Sequential) : bool :=
  existsb (λ l, match l with LBatchNorm2d _ => true | LConv2d _ => false end) m.

(** *** BasicBlock *)

Module BasicBlock.

Record t := mk {
  conv1 : Sequential;
  conv2 : Sequential;
  shortcut : Sequential
}.

(** The constructor runs as a list of statements over its frame: the
    three local Python lists and the attributes assigned to [self] so
    far.  Appending mutates the local list; building a Sequential reads
    the list as it is at that statement. *)
Record Frame := mkFrame {
  conv_block1 : list Layer;
  conv_block2 : list Layer;
  shortcut_layers : list Layer;
  self_conv1 : Sequential;
  self_conv2 : Sequential;
  self_shortcut : Sequential
}.

Definition Stmt := Frame → Frame.

Definition exec (prog : list Stmt) (f : Frame) : Frame :=
  foldl (λ f s, s f) f prog.

Definition when (b : bool) (prog : list Stmt) : Stmt :=
  λ f, if b then exec prog f else f.

Definition set_conv_block1 (e : Frame → list Layer) : Stmt :=
  λ f, mkFrame (e f) (conv_block2 f) (shortcut_layers f)
               (self_conv1 f) (self_conv2 f) (self_shortcut f).
Definition set_conv_block2 (e : Frame → list Layer) : Stmt :=
  λ f, mkFrame (conv_block1 f) (e f) (shortcut_layers f)
               (self_conv1 f) (self_conv2 f) (self_shortcut f).
Definition set_shortcut_layers (e : Frame → list Layer) : Stmt :=
  λ f, mkFrame (conv_block1 f) (conv_block2 f) (e f)
               (self_conv1 f) (self_conv2 f) (self_shortcut f).
Definition set_self_conv1 (e : Frame → Sequential) : Stmt :=
  λ f, mkFrame (conv_block1 f) (conv_block2 f) (shortcut_layers f)
               (e f) (self_conv2 f) (self_shortcut f).
Definition set_self_conv2 (e : Frame → Sequential) : Stmt :=
  λ f, mkFrame (conv_block1 f) (conv_block2 f) (shortcut_layers f)
               (self_conv1 f) (e f) (self_shortcut f).
Definition set_self_shortcut (e : Frame → Sequential) : Stmt :=
  λ f, mkFrame (conv_block1 f) (conv_block2 f) (shortcut_layers f)
               (self_conv1 f) (self_conv2 f) (e f).

(** [lst.append(l)] *)
Definition append (l : Layer) (lst : list Layer) : list Layer := lst ++ [l].

Definition empty_frame : Frame := mkFrame [] [] [] [] [] [].

(** The statements of [BasicBlock.__init__], in source order. *)
Definition __init__body (in_channels out_channels kernel_size stride : Z)
    (use_batchnorm : bool) : list Stmt :=
  [ set_conv_block1 (λ _, []);
    set_conv_block1 (λ f, append (LConv2d (mkConv2d in_channels out_channels
                                    kernel_size stride (kernel_size `div` 2)
                                    (negb use_batchnorm)))
                                 (conv_block1 f));
    when use_batchnorm
      [ set_conv_block1 (λ f, append (LBatchNorm2d out_channels) (conv_block1 f)) ];
    set_self_conv1 (λ f, conv_block1 f);

    set_conv_block2 (λ _, []);
    set_conv_block2 (λ f, append (LConv2d (mkConv2d out_channels out_channels
                                    kernel_size 1 (kernel_size `div` 2)
                                    (negb use_batchnorm)))
                                 (conv_block2 f));
    set_self_conv2 (λ f, conv_block2 f);

    when use_batchnorm
      [ set_conv_block2 (λ f, append (LBatchNorm2d out_channels) (conv_block2 f)) ];

    set_self_shortcut (λ _, []);
    when (bool_decide (stride ≠ 1) || bool_decide (in_channels ≠ out_channels))
      [ set_shortcut_layers (λ _, [ LConv2d (mkConv2d in_channels out_channels
                                               1 stride 0 false) ]);
        when use_batchnorm
          [ set_shortcut_layers
              (λ f, append (LBatchNorm2d out_channels) (shortcut_layers f)) ];
        set_self_shortcut (λ f, shortcut_layers f) ] ].

(** The frame when the constructor returns. *)
Definition __init__frame (in_channels out_channels kernel_size stride : Z)
    (use_batchnorm : bool) : Frame :=
  exec (__init__body in_channels out_channels kernel_size stride use_batchnorm)
       empty_frame.

(** The block the constructor leaves.  Its layers allocate their
    weights, so this is the constructor for channel counts and a kernel
    size that are not negative; with a negative one [nn.Conv2d]
    raises. *)
Definition __init__ (in_channels out_channels kernel_size stride : Z)
    (use_batchnorm : bool) : t :=
  let f := __init__frame in_channels out_channels kernel_size stride use_batchnorm in
  mk (self_conv1 f) (self_conv2 f) (self_shortcut f).

(** The main branch up to the residual addition: lines 69 to 72. *)
Definition main_branch (rt : Runtime) (self : t) (x : Tensor) : option Tensor :=
  out ← Sequential_forward rt (conv1 self) x;
  let out := relu out in
  Sequential_forward rt (conv2 self) out.

Definition forward (rt : Runtime) (self : t) (x : Tensor) : option Tensor :=
  identity ← Sequential_forward rt (shortcut self) x;
  out ← main_branch rt self x;
  out ← iadd out identity;
  Some (relu out).

End BasicBlock.

(** Python list indexing [l[i]]: a negative index counts from the end;
    an index outside the list raises. *)
Definition py_index (l : list Z) (i : Z) : option Z :=
  if decide (0 ≤ i) then l !! Z.to_nat i
  else if decide (0 ≤ Z.of_nat (length l) + i)
       then l !! Z.to_nat (Z.of_nat (length l) + i)
       else None.

(** [range(a, b)] *)
Definition py_range (a b : Z) : list Z := seqZ a (b - a).

(** *** ClassifyingResNet *)

Module ClassifyingResNet.

Record t := mk {
  use_batchnorm : bool;
  conv_block : Sequential;
  max_pool : MaxPool2d;
  layer1 : list BasicBlock.t;
  layer2 : list BasicBlock.t;
  layer3 : list BasicBlock.t;
  layer4 : list BasicBlock.t;
  global_pool : Z * Z;
  fc : Linear
}.

(** Default arguments of the constructor. *)
Definition default_in_channels : Z := 3.
Definition default_num_classes : Z := 10.
Definition default_block_channels : list Z := [16; 32; 64; 128].
Definition default_num_blocks : list Z := [2; 2; 2; 2].
Definition default_strides : list Z := [2; 1; 1; 1].
Definition default_use_batchnorm : bool := true.

(** [BasicBlock(in_channels=.., out_channels=.., stride=.., use_batchnorm=..)]:
    the kernel size keeps its default, 3. *)
Definition new_block (use_batchnorm : bool) (in_channels out_channels stride : Z)
  : BasicBlock.t :=
  BasicBlock.__init__ in_channels out_channels 3 stride use_batchnorm.

Definition _make_layer (use_batchnorm : bool)
    (in_channels out_channels block_count stride : Z) : list BasicBlock.t :=
  let layers := [] in
  let layers := layers ++ [new_block use_batchnorm in_channels out_channels stride] in
  foldl (λ layers _,
           layers ++ [new_block use_batchnorm out_channels out_channels stride])
        layers (py_range 1 block_count).

(** The layer constructors allocate their weights: a negative channel
    count, stage width or number of classes makes the allocation, and
    so the constructor, raise. *)
Definition __init__ (in_channels num_classes : Z)
    (block_channels num_blocks strides : list Z) (use_batchnorm : bool)
  : option t :=
  let conv_block := [] in
  let conv_block :=
    conv_block ++ [LConv2d (mkConv2d in_channels in_channels 7 2 3
                                     (negb use_batchnorm))] in
  let conv_block :=
    if use_batchnorm then conv_block ++ [LBatchNorm2d in_channels]
    else conv_block in
  let max_pool := mkMaxPool2d 3 2 1 in
  c0 ← py_index block_channels 0;
  n0 ← py_index num_blocks 0;
  s0 ← py_index strides 0;
  let layer1 := _make_layer use_batchnorm in_channels c0 n0 s0 in
  c1 ← py_index block_channels 1;
  n1 ← py_index num_blocks 1;
  s1 ← py_index strides 1;
  let layer2 := _make_layer use_batchnorm c0 c1 n1 s1 in
  c2 ← py_index block_channels 2;
  n2 ← py_index num_blocks 2;
  s2 ← py_index strides 2;
  let layer3 := _make_layer use_batchnorm c1 c2 n2 s2 in
  c3 ← py_index block_channels 3;
  n3 ← py_index num_blocks 3;
  s3 ← py_index strides 3;
  let layer4 := _make_layer use_batchnorm c2 c3 n3 s3 in
  let global_pool := (1, 1) in
  c_last ← py_index block_channels (-1);
  let fc := mkLinear c_last num_classes in
  if decide (Forall (λ size, 0 ≤ size)
               [in_channels; c0; c1; c2; c3; c_last; num_classes])
  then Some (mk use_batchnorm conv_block max_pool layer1 layer2 layer3 layer4
                global_pool fc)
  else None.

(** A stage: an [nn.Sequential] of blocks. *)
Fixpoint layer_forward (rt : Runtime) (blocks : list BasicBlock.t) (x : Tensor)
  : option Tensor :=
  match blocks with
  | [] => Some x
  | b :: blocks' => y ← BasicBlock.forward rt b x; layer_forward rt blocks' y
  end.

(** The stem, in the order [forward] applies it (lines 160 to 162):
    convolution block, max pooling, ReLU. *)
Definition stem (rt : Runtime) (self : t) (x : Tensor) : option Tensor :=
  x ← Sequential_forward rt (conv_block self) x;
  x ← max_pool2d (max_pool self) x;
  Some (relu x).

(** The stem in the order the specification gives it: convolution
    block, ReLU, max pooling. *)
Definition stem_spec (rt : Runtime) (self : t) (x : Tensor) : option Tensor :=
  x ← Sequential_forward rt (conv_block self) x;
  let x := relu x in
  max_pool2d (max_pool self) x.

Definition forward (rt : Runtime) (self : t) (x : Tensor) : option Tensor :=
  x ← stem rt self x;
  x ← layer_forward rt (layer1 self) x;
  x ← layer_forward rt (layer2 self) x;
  x ← layer_forward rt (layer3 self) x;
  x ← layer_forward rt (layer4 self) x;
  x ← adaptive_avg_pool2d rt (global_pool self) x;
  x ← flatten1 x;
  linear rt (fc self) x.

End ClassifyingResNet.

(** *** ClassGuidedUNet *)

(** Identity of a parameter object. *)
Definition param := positive.

(** What the wrapper uses of a module handed to it: the parameter
    objects [parameters()] yields and what calling it computes. *)
Record Module (call_type : Type) := mkModule {
  parameters : list param;
  call : call_type
}.
Arguments mkModule {call_type}.
Arguments parameters {call_type}.
Arguments call {call_type}.

(** The autograd state forward and the constructor touch: the
    [requires_grad] flag of every live parameter object and the global
    gradient mode. *)
Record Autograd := mkAutograd {
  requires_grad : gmap param bool;
  grad_enabled : bool
}.

Module ClassGuidedUNet.

Definition FEATURE_CHANNELS : Z := 32.

Record t := mk {
  classifier : Module (Tensor → option Tensor);
  unet : Module (Tensor → Tensor → option Tensor);
  fc : Linear;
  fc_parameters : list param
}.

(** A parameter object created now: distinct from every live one, with
    gradient tracking on. *)
Definition new_parameter (live : gset param) (σ : Autograd) : param * Autograd :=
  let p := fresh (live ∪ dom (requires_grad σ)) in
  (p, mkAutograd (<[p := true]> (requires_grad σ)) (grad_enabled σ)).

(** [param.requires_grad = False] *)
Definition freeze (σ : Autograd) (p : param) : Autograd :=
  mkAutograd (<[p := false]> (requires_grad σ)) (grad_enabled σ).

(** The constructor as it runs when [nn.Linear] can allocate its
    weights, that is for [0 ≤ feature_channels]; with a negative
    [feature_channels] line 24 raises and nothing below it runs. *)
Definition __init__ (classifier : Module (Tensor → option Tensor))
    (unet : Module (Tensor → Tensor → option Tensor)) (feature_channels : Z)
    (σ : Autograd) : t * Autograd :=
  let live := list_to_set (parameters classifier)
              ∪ list_to_set (parameters unet) in
  let fc := mkLinear 10 (feature_channels * 12 * 12) in
  let '(weight, σ) := new_parameter live σ in
  let '(bias, σ) := new_parameter live σ in
  let σ := foldl freeze σ (parameters classifier) in
  (mk classifier unet fc [weight; bias], σ).

Definition forward (rt : Runtime) (self : t) (x : Tensor) (σ : Autograd)
  : option Tensor * Autograd :=
  let prev := grad_enabled σ in
  let σ := mkAutograd (requires_grad σ) false in
  let class_out := call (classifier self) x in
  let σ := mkAutograd (requires_grad σ) prev in
  (class_out ← class_out;
   class_out ← linear rt (fc self) class_out;
   class_out ← view [-1; out_features (fc self) `div` (12 * 12); 12; 12] class_out;
   call (unet self) x class_out,
   σ).

(** The stub classifier of the end-to-end scenario: it returns a fixed
    tensor whatever the image. *)
Definition stub_classifier (out : Tensor) : Module (Tensor → option Tensor) :=
  mkModule [] (λ _, Some out).

(** The stub U-Net of the end-to-end scenario: it asserts the shape of
    its conditioning argument and returns the image unchanged. *)
Definition stub_unet (N : Z) : Module (Tensor → Tensor → option Tensor) :=
  mkModule [] (λ image cond,
                 if decide (shape cond = [N; 32; 12; 12]) then Some image else None).

End ClassGuidedUNet.

(** ** Derived notions used in the statements *)

(** A convolution followed by batch normalisation when asked for. *)
Definition conv_bn (c : Conv2d) (bn : bool) : Sequential :=
  LConv2d c :: (if bn then [LBatchNorm2d (out_channels c)] else []).

(** Spatial extent after a window of odd size [k] with padding
    [k // 2], or a window of size 1 without padding, at step [s]. *)
Definition strided (n s : Z) : Z := (n - 1) `div` s + 1.

(** Batch normalisation, where present and in training mode, sees more
    than one value per channel on a (N, _, H, W) input. *)
Definition norm_ok (rt : Runtime) (bn : bool) (N H W : Z) : Prop :=
  bn = true → training rt = true → N * H * W ≠ 1.

(** The same for an image batch or a single image: a batch
    normalisation takes batches only. *)
Definition norm_ok_image (rt : Runtime) (bn : bool) (N : option Z) (H W : Z)
  : Prop :=
  bn = true → ∃ n, N = Some n ∧ (training rt = true → n * H * W ≠ 1).



(** Extent after a stage of [max(1, block_count)] blocks at stride
    [s], and after the stem and the four stages of the network. *)
Definition stage_extent (n s h : Z) : Z :=
  Nat.iter (Z.to_nat (Z.max 1 n)) (λ h, strided h s) h.

Definition final_extent (num_blocks strides : list Z) (h : Z) : Z :=
  foldl (λ h ns, stage_extent ns.1 ns.2 h) (strided (strided h 2) 2)
        (zip (take 4 num_blocks) (take 4 strides)).

(** A condition under which that holds at every layer of the network:
    no batch normalisation, or evaluation mode, or at least two images
    in the batch. *)
Definition norm_safe (rt : Runtime) (bn : bool) (N : Z) : Prop :=
  bn = false ∨ training rt = false ∨ 2 ≤ N.

(** [torch.zeros(shape)] *)
Definition zeros (s : list Z) : Tensor :=
  mkTensor s (replicate (Z.to_nat (numel s)) 0%Qc).


(** The kernels of a network whose weights are all zero: every learned
    layer outputs zeros; the mean is the given one. *)
Definition zero_weights (training : bool) (mean_data : list Qc → Qc) : Runtime :=
  mkRuntime training
    (λ c x, match image_dims (shape x) with
            | Some (N, C, H, W) =>
                let H' := default 0 (out_size H (kernel_size c) (stride c) (padding c)) in
                let W' := default 0 (out_size W (kernel_size c) (stride c) (padding c)) in
                replicate (Z.to_nat (batch_size N * out_channels c * H' * W')) 0%Qc
            | None => []
            end)
    (λ _ x, replicate (length (data x)) 0%Qc)
    (λ l x, replicate (Z.to_nat (numel (shape x) `div` in_features l * out_features l))
                      0%Qc)
    mean_data.

(** With the mean of exact arithmetic, and with the mean of single
    precision. *)
Definition zero_runtime (training : bool) : Runtime :=
  zero_weights training mean.

(** ** What the constructors build *)

Section Constructors.

Implicit Types (i o k s : Z) (bn : bool).

Ltac run_init :=
  unfold BasicBlock.__init__, BasicBlock.__init__frame, BasicBlock.__init__body;
  repeat match goal with
         | |- context [bool_decide ?P || bool_decide ?Q] =>
             destruct (bool_decide P || bool_decide Q)
         | bn : bool |- _ => destruct bn
         end;
  reflexivity.

Lemma BasicBlock_conv1 i o k s bn :
  BasicBlock.conv1 (BasicBlock.__init__ i o k s bn)
  = conv_bn (mkConv2d i o k s (k `div` 2) (negb bn)) bn.
Proof. run_init. Qed.

Lemma BasicBlock_conv2 i o k s bn :
  BasicBlock.conv2 (BasicBlock.__init__ i o k s bn)
  = [LConv2d (mkConv2d o o k 1 (k `div` 2) (negb bn))].
Proof. run_init. Qed.

Lemma BasicBlock_conv_block2 i o k s bn :
  BasicBlock.conv_block2 (BasicBlock.__init__frame i o k s bn)
  = conv_bn (mkConv2d o o k 1 (k `div` 2) (negb bn)) bn.
Proof. run_init. Qed.

Lemma BasicBlock_shortcut_cases i o k s bn :
  BasicBlock.shortcut (BasicBlock.__init__ i o k s bn)
  = if bool_decide (s ≠ 1) || bool_decide (i ≠ o)
    then conv_bn (mkConv2d i o 1 s 0 false) bn
    else [].
Proof. run_init. Qed.

Lemma BasicBlock_shortcut_identity i o k s bn :
  i = o → s = 1 → BasicBlock.shortcut (BasicBlock.__init__ i o k s bn) = [].
Proof.
  intros -> ->. rewrite BasicBlock_shortcut_cases.
  by rewrite !bool_decide_eq_false_2 by (intros ?; congruence).
Qed.

Lemma BasicBlock_shortcut_projection i o k s bn :
  ¬ (i = o ∧ s = 1) →
  BasicBlock.shortcut (BasicBlock.__init__ i o k s bn)
  = conv_bn (mkConv2d i o 1 s 0 false) bn.
Proof.
  intros Hne. rewrite BasicBlock_shortcut_cases.
  assert (bool_decide (s ≠ 1) || bool_decide (i ≠ o) = true) as ->; [|done].
  apply orb_true_iff. rewrite !bool_decide_eq_true.
  destruct (decide (s = 1)); [right | left]; naive_solver.
Qed.

Lemma foldl_append_const {A B} (b : A) (xs : list B) (l0 : list A) :
  foldl (λ l _, l ++ [b]) l0 xs = l0 ++ replicate (length xs) b.
Proof.
  revert l0. induction xs as [|x xs IH]; intros l0; cbn.
  - by rewrite app_nil_r.
  - rewrite IH, <- app_assoc. reflexivity.
Qed.

Lemma make_layer_blocks bn i o n s :
  ClassifyingResNet._make_layer bn i o n s
  = ClassifyingResNet.new_block bn i o s
    :: replicate (Z.to_nat (n - 1)) (ClassifyingResNet.new_block bn o o s).
Proof.
  unfold ClassifyingResNet._make_layer, py_range.
  rewrite foldl_append_const, length_seqZ. reflexivity.
Qed.

End Constructors.

(** ** Facts about the tensor library *)

Section TorchFacts.

Context (rt : Runtime).

Lemma out_size_Some n k s p :
  1 ≤ k → 1 ≤ s → 0 ≤ p → k ≤ n + 2 * p →
  out_size n k s p = Some ((n + 2 * p - k) `div` s + 1).
Proof. intros. unfold out_size. rewrite decide_True; [done | lia]. Qed.

Lemma out_size_pos n k s p r : out_size n k s p = Some r → 1 ≤ r.
Proof.
  unfold out_size. case_decide as H; [|done]. intros [= <-].
  assert (0 ≤ (n + 2 * p - k) `div` s) by (apply Z.div_pos; lia). lia.
Qed.

Lemma out_size_inv n k s p r :
  out_size n k s p = Some r →
  1 ≤ k ∧ 1 ≤ s ∧ 0 ≤ p ∧ k ≤ n + 2 * p ∧ r = (n + 2 * p - k) `div` s + 1.
Proof. unfold out_size. case_decide; [|done]. intros [= <-]. lia. Qed.

Lemma image_dims_shape (N : option Z) C H W :
  image_dims (image_shape N C H W) = Some (N, C, H, W).
Proof. by destruct N. Qed.

Lemma image_dims_inv s (N : option Z) C H W :
  image_dims s = Some (N, C, H, W) → s = image_shape N C H W.
Proof.
  destruct s as [|a [|b [|c [|d [|? ?]]]]]; cbn; try done.
  - by intros [= <- <- <- <-].
  - by intros [= <- <- <- <-].
Qed.

Lemma conv2d_shape_image c x (N : option Z) C H W H' W' :
  shape x = image_shape N C H W → C = in_channels c → 1 ≤ out_channels c →
  out_size H (kernel_size c) (stride c) (padding c) = Some H' →
  out_size W (kernel_size c) (stride c) (padding c) = Some W' →
  ∃ y, conv2d rt c x = Some y ∧ shape y = image_shape N (out_channels c) H' W'.
Proof.
  intros Hx -> Ho HH HW. unfold conv2d.
  rewrite Hx, image_dims_shape, decide_True, HH, HW by done. cbn. eauto.
Qed.

Lemma conv2d_shape c x N C H W H' W' :
  shape x = [N; C; H; W] → C = in_channels c → 1 ≤ out_channels c →
  out_size H (kernel_size c) (stride c) (padding c) = Some H' →
  out_size W (kernel_size c) (stride c) (padding c) = Some W' →
  ∃ y, conv2d rt c x = Some y ∧ shape y = [N; out_channels c; H'; W'].
Proof. apply (conv2d_shape_image c x (Some N)). Qed.

Lemma conv2d_inv c x y :
  conv2d rt c x = Some y →
  ∃ (N : option Z) H W H' W',
    shape x = image_shape N (in_channels c) H W
    ∧ 1 ≤ out_channels c
    ∧ out_size H (kernel_size c) (stride c) (padding c) = Some H'
    ∧ out_size W (kernel_size c) (stride c) (padding c) = Some W'
    ∧ shape y = image_shape N (out_channels c) H' W'.
Proof.
  unfold conv2d. intros Hy.
  destruct (image_dims (shape x)) as [[[[N C] H] W]|] eqn:Hx; [|done].
  apply image_dims_inv in Hx.
  case_decide as HC; [destruct HC as [-> Ho]|done].
  destruct (out_size H _ _ _) as [H'|] eqn:HH; [|done].
  destruct (out_size W _ _ _) as [W'|] eqn:HW; [|done].
  cbn in Hy. injection Hy as <-. by exists N, H, W, H', W'.
Qed.

Lemma batch_norm2d_shape n x N C H W :
  shape x = [N; C; H; W] → C = n →
  (training rt = true → N * H * W ≠ 1) →
  ∃ y, batch_norm2d rt n x = Some y ∧ shape y = [N; C; H; W].
Proof.
  intros Hx -> Hok. unfold batch_norm2d. rewrite Hx, decide_True by done.
  destruct (training rt); cbn; [|eauto].
  rewrite bool_decide_eq_false_2 by auto. eauto.
Qed.

Lemma batch_norm2d_inv n x y :
  batch_norm2d rt n x = Some y →
  ∃ N H W,
    shape x = [N; n; H; W] ∧ shape y = [N; n; H; W]
    ∧ (training rt = true → N * H * W ≠ 1).
Proof.
  unfold batch_norm2d. intros Hy.
  destruct (shape x) as [|N [|C [|H [|W [|? ?]]]]]; try done.
  case_decide as HC; [subst C|done].
  destruct (training rt && bool_decide (N * H * W = 1)) eqn:E; [done|].
  injection Hy as <-. exists N, H, W. repeat split; [done..|].
  intros Ht Hone. rewrite Ht, bool_decide_eq_true_2 in E by done. done.
Qed.

Lemma conv_bn_shape_image c bn x (N : option Z) C H W H' W' :
  shape x = image_shape N C H W → C = in_channels c → 1 ≤ out_channels c →
  out_size H (kernel_size c) (stride c) (padding c) = Some H' →
  out_size W (kernel_size c) (stride c) (padding c) = Some W' →
  norm_ok_image rt bn N H' W' →
  ∃ y, Sequential_forward rt (conv_bn c bn) x = Some y
       ∧ shape y = image_shape N (out_channels c) H' W'.
Proof.
  intros Hx HC Ho HH HW Hok.
  destruct (conv2d_shape_image c x _ _ _ _ _ _ Hx HC Ho HH HW) as (y & Hy & Hsy).
  unfold conv_bn. cbn. rewrite Hy. cbn. destruct bn; cbn; [|eauto].
  destruct (Hok eq_refl) as (n & -> & Hn).
  destruct (batch_norm2d_shape (out_channels c) y _ _ _ _ Hsy eq_refl Hn)
    as (z & -> & Hz).
  cbn. eauto.
Qed.

Lemma norm_ok_image_batch bn N H W :
  norm_ok rt bn N H W → norm_ok_image rt bn (Some N) H W.
Proof. intros Hok Hbn. exists N. split; [done|]. by apply Hok. Qed.

Lemma conv_bn_shape c bn x N C H W H' W' :
  shape x = [N; C; H; W] → C = in_channels c → 1 ≤ out_channels c →
  out_size H (kernel_size c) (stride c) (padding c) = Some H' →
  out_size W (kernel_size c) (stride c) (padding c) = Some W' →
  norm_ok rt bn N H' W' →
  ∃ y, Sequential_forward rt (conv_bn c bn) x = Some y
       ∧ shape y = [N; out_channels c; H'; W'].
Proof.
  intros Hx HC Ho HH HW Hok.
  apply (conv_bn_shape_image c bn x (Some N) C H W); auto using norm_ok_image_batch.
Qed.

Lemma conv_bn_inv c bn x y :
  Sequential_forward rt (conv_bn c bn) x = Some y →
  ∃ (N : option Z) H W H' W',
    shape x = image_shape N (in_channels c) H W
    ∧ 1 ≤ out_channels c
    ∧ out_size H (kernel_size c) (stride c) (padding c) = Some H'
    ∧ out_size W (kernel_size c) (stride c) (padding c) = Some W'
    ∧ shape y = image_shape N (out_channels c) H' W'
    ∧ norm_ok_image rt bn N H' W'.
Proof.
  unfold conv_bn. cbn. intros Hy.
  destruct (conv2d rt c x) as [a|] eqn:Ha; [|done]. cbn in Hy.
  apply conv2d_inv in Ha as (N & H & W & H' & W' & Hx & Ho & HH & HW & Hsa).
  exists N, H, W, H', W'. destruct bn; cbn in Hy.
  - destruct (batch_norm2d rt _ a) as [b|] eqn:Hb; [|done].
    cbn in Hy. injection Hy as <-.
    apply batch_norm2d_inv in Hb as (n & H2 & W2 & Hsa' & Hsb & Hok).
    rewrite Hsa in Hsa'. destruct N as [n'|]; [|done].
    injection Hsa' as -> <- <-.
    repeat split; try done. intros _. by exists n.
  - injection Hy as <-. repeat split; done.
Qed.

Lemma broadcast_rev_refl s : broadcast_rev s s = true.
Proof.
  induction s as [|d s IH]; [done|]. cbn.
  rewrite bool_decide_eq_true_2 by (by left). done.
Qed.

Lemma iadd_shape a b :
  shape b = shape a → ∃ y, iadd a b = Some y ∧ shape y = shape a.
Proof.
  intros Hs. unfold iadd, broadcastable. rewrite Hs, broadcast_rev_refl. eauto.
Qed.

(** *** ReLU and the running maximum *)

Lemma relu1_0 : relu1 0%Qc = 0%Qc.
Proof. unfold relu1. by case_decide. Qed.

Lemma relu1_mono v w : (v ≤ w)%Qc → (relu1 v ≤ relu1 w)%Qc.
Proof.
  intros Hvw. unfold relu1.
  destruct (decide (0 < v)%Qc) as [Hv|Hv], (decide (0 < w)%Qc) as [Hw|Hw];
    try done.
  - exfalso. apply Hw. eapply Qclt_le_trans; eauto.
  - by apply Qclt_le_weak.
Qed.

Lemma relu1_max_step acc v :
  max_step (relu1 <$> acc) (relu1 v) = relu1 <$> max_step acc v.
Proof.
  destruct acc as [m|]; cbn; [|done]. f_equal.
  destruct (decide (m < v)%Qc) as [Hlt|Hge].
  - case_decide as E; [done|].
    apply Qcle_antisym; [|by apply Qcnot_lt_le].
    by apply relu1_mono, Qclt_le_weak.
  - rewrite decide_False; [done|].
    apply Qcle_not_lt, relu1_mono. by apply Qcnot_lt_le.
Qed.

Lemma relu1_foldl_max_step acc vs :
  foldl max_step (relu1 <$> acc) (relu1 <$> vs)
  = relu1 <$> foldl max_step acc vs.
Proof.
  revert acc. induction vs as [|v vs IH]; intros acc; cbn; [done|].
  by rewrite relu1_max_step, IH.
Qed.

Lemma relu1_window_max vs :
  window_max (relu1 <$> vs) = relu1 <$> window_max vs.
Proof. apply (relu1_foldl_max_step None). Qed.

Lemma entry_relu d i : entry (relu1 <$> d) i = relu1 (entry d i).
Proof.
  unfold entry. rewrite list_lookup_fmap.
  destruct (d !! Z.to_nat i); cbn; [done|]. by rewrite relu1_0.
Qed.

Lemma mapM_fmap_pointwise {A B} (f g : A → option B) (h : B → B) l :
  (∀ a, g a = h <$> f a) → mapM g l = fmap h <$> mapM f l.
Proof.
  intros Hg. induction l as [|a l IH]; cbn; [done|].
  rewrite Hg, IH. destruct (f a); cbn; [|done]. by destruct (mapM f l).
Qed.

(** ReLU commutes with max pooling, failure included. *)
Lemma relu_max_pool2d m x :
  max_pool2d m (relu x) = relu <$> max_pool2d m x.
Proof.
  unfold max_pool2d. cbn [relu shape data].
  destruct (image_dims (shape x)) as [[[[N C] H] W]|]; [|done].
  case_decide; [|done].
  destruct (out_size H _ _ _) as [H'|]; cbn; [|done].
  destruct (out_size W _ _ _) as [W'|]; cbn; [|done].
  rewrite (mapM_fmap_pointwise
             (λ pos, window_max
                       (entry (data x)
                          <$> pool_window C H W (pool_kernel_size m)
                                (pool_stride m) (pool_padding m) pos))
             _ relu1).
  - by destruct (mapM _ _).
  - intros pos. rewrite <- relu1_window_max. f_equal.
    rewrite <- list_fmap_compose. apply list_fmap_ext.
    intros ? i _. cbn. apply entry_relu.
Qed.

(** *** Max pooling returns *)

Lemma foldl_max_step_is_Some m vs : is_Some (foldl max_step (Some m) vs).
Proof.
  revert m. induction vs as [|v vs IH]; intros m; cbn; [eauto|]. apply IH.
Qed.

Lemma window_max_is_Some vs : vs ≠ [] → is_Some (window_max vs).
Proof.
  destruct vs as [|v vs]; [done|]. intros _. apply foldl_max_step_is_Some.
Qed.

Lemma elem_of_positions4 N C H W n c h w :
  (n, c, h, w) ∈ positions4 N C H W
  ↔ 0 ≤ n < N ∧ 0 ≤ c < C ∧ 0 ≤ h < H ∧ 0 ≤ w < W.
Proof.
  unfold positions4.
  repeat setoid_rewrite list_elem_of_bind.
  setoid_rewrite elem_of_seqZ. setoid_rewrite list_elem_of_singleton.
  split.
  - intros (n' & (c' & (h' & (w' & [= -> -> -> ->] & ?) & ?) & ?) & ?). lia.
  - intros (? & ? & ? & ?). exists n. split; [|lia]. exists c. split; [|lia].
    exists h. split; [|lia]. exists w. split; [done|lia].
Qed.

Lemma pool_window_nonempty C H W k s p n c oh ow H' W' :
  2 * p < k →
  out_size H k s p = Some H' → out_size W k s p = Some W' →
  0 ≤ oh < H' → 0 ≤ ow < W' →
  pool_window C H W k s p (n, c, oh, ow) ≠ [].
Proof.
  unfold out_size. intros Hp HH HW Hoh How.
  case_decide as Hk; [|done]. case_decide; [|done].
  injection HH as <-. injection HW as <-.
  assert (oh * s ≤ H + 2 * p - k).
  { transitivity (s * ((H + 2 * p - k) `div` s)); [nia|].
    apply Z.mul_div_le; lia. }
  assert (ow * s ≤ W + 2 * p - k).
  { transitivity (s * ((W + 2 * p - k) `div` s)); [nia|].
    apply Z.mul_div_le; lia. }
  intros Hnil.
  assert (offset4 C H W n c (oh * s - p + p) (ow * s - p + p)
          ∈ pool_window C H W k s p (n, c, oh, ow)) as Hin.
  { unfold pool_window. apply list_elem_of_bind. exists p. split.
    - apply list_elem_of_bind. exists p. split.
      + rewrite decide_True by nia. apply list_elem_of_singleton. done.
      + apply elem_of_seqZ. lia.
    - apply elem_of_seqZ. lia. }
  rewrite Hnil in Hin. by apply not_elem_of_nil in Hin.
Qed.

Lemma max_pool2d_shape m x N C H W H' W' :
  shape x = [N; C; H; W] →
  2 * pool_padding m < pool_kernel_size m → 1 ≤ H → 1 ≤ W →
  out_size H (pool_kernel_size m) (pool_stride m) (pool_padding m) = Some H' →
  out_size W (pool_kernel_size m) (pool_stride m) (pool_padding m) = Some W' →
  ∃ y, max_pool2d m x = Some y ∧ shape y = [N; C; H'; W'].
Proof.
  intros Hx Hp H1 W1 HH HW. unfold max_pool2d.
  rewrite Hx. cbn [image_dims]. rewrite decide_True, HH, HW by lia. cbn.
  match goal with |- context [mapM ?f ?l] => destruct (mapM_is_Some_2 f l) as [d ->] end.
  - apply list.Forall_forall. intros [[[n c] oh] ow] Hpos.
    apply elem_of_positions4 in Hpos. cbn.
    apply window_max_is_Some. intros Hnil. apply fmap_nil_inv in Hnil.
    revert Hnil. eapply pool_window_nonempty; eauto; lia.
  - cbn. eauto.
Qed.

Lemma max_pool2d_inv m x y :
  max_pool2d m x = Some y →
  ∃ (N : option Z) C H W H' W',
    shape x = image_shape N C H W ∧ shape y = image_shape N C H' W'.
Proof.
  unfold max_pool2d. intros Hy.
  destruct (image_dims (shape x)) as [[[[N C] H] W]|] eqn:Hx; [|done].
  apply image_dims_inv in Hx.
  case_decide; [|done].
  destruct (out_size H _ _ _) as [H'|]; [|done].
  destruct (out_size W _ _ _) as [W'|]; [|done].
  cbn in Hy. destruct (mapM _ _) as [d|]; [|done].
  cbn in Hy. injection Hy as <-. by exists N, C, H, W, H', W'.
Qed.

End TorchFacts.

(** ** Shapes through the residual network *)

Section ResNetShapes.

Context (rt : Runtime).

Implicit Types (i o k s N H W : Z) (bn : bool) (x : Tensor).

Lemma strided_pos n s : 1 ≤ n → 1 ≤ s → 1 ≤ strided n s.
Proof.
  intros. unfold strided.
  assert (0 ≤ (n - 1) `div` s) by (apply Z.div_pos; lia). lia.
Qed.

Lemma strided_1 n : strided n 1 = n.
Proof. unfold strided. rewrite Z.div_1_r. lia. Qed.

Lemma strided_one s : 1 ≤ s → strided 1 s = 1.
Proof. intros. unfold strided. by rewrite Z.div_small by lia. Qed.

Lemma iter_strided_pos (k : nat) s n :
  1 ≤ s → 1 ≤ n → 1 ≤ Nat.iter k (λ h, strided h s) n.
Proof.
  intros Hs Hn. induction k as [|k IH]; [done|].
  rewrite Nat.iter_succ. by apply strided_pos.
Qed.

Lemma iter_strided_one (k : nat) s :
  1 ≤ s → Nat.iter k (λ h, strided h s) 1 = 1.
Proof.
  intros Hs. induction k as [|k IH]; [done|].
  rewrite Nat.iter_succ, IH. by apply strided_one.
Qed.

Lemma stage_extent_pos n s h : 1 ≤ s → 1 ≤ h → 1 ≤ stage_extent n s h.
Proof. apply iter_strided_pos. Qed.

Lemma stage_extent_one n s : 1 ≤ s → stage_extent n s 1 = 1.
Proof. apply iter_strided_one. Qed.

Lemma norm_safe_ok bn N H W :
  norm_safe rt bn N → 1 ≤ H → 1 ≤ W → norm_ok rt bn N H W.
Proof.
  intros [->|[Ht|HN]] HH HW Hbn Htr; [done|congruence|nia].
Qed.

(** If a later map is not a single value per channel, an earlier one is
    not either: every layer maps the extent 1 to 1. *)
Lemma norm_ok_earlier (f : Z → Z) bn N H W :
  f 1 = 1 → 1 ≤ H → 1 ≤ W →
  norm_ok rt bn N (f H) (f W) → norm_ok rt bn N H W.
Proof.
  intros Hf HH HW Hok Hbn Htr Hone.
  assert (W = 1 ∧ N * H = 1) as [-> HNH]
    by (apply Z.eq_mul_1_nonneg; lia).
  assert (H = 1 ∧ N = 1) as [-> _] by (apply Z.eq_mul_1_nonneg; lia).
  apply (Hok Hbn Htr). rewrite Hf. lia.
Qed.

Lemma out_size_half_pad n k s p :
  k = 2 * p + 1 → 0 ≤ p → 1 ≤ s → 1 ≤ n →
  out_size n k s p = Some (strided n s).
Proof.
  intros -> Hp Hs Hn. rewrite out_size_Some by lia.
  unfold strided. do 3 f_equal. lia.
Qed.

Lemma out_size_odd n k s :
  1 ≤ k → k `mod` 2 = 1 → 1 ≤ s → 1 ≤ n →
  out_size n k s (k `div` 2) = Some (strided n s).
Proof.
  intros Hk Hodd Hs Hn.
  pose proof (Z.div_mod k 2 ltac:(lia)) as Hdm.
  assert (0 ≤ k `div` 2) by (apply Z.div_pos; lia).
  apply out_size_half_pad; lia.
Qed.

Lemma out_size_pointwise n s :
  1 ≤ s → 1 ≤ n → out_size n 1 s 0 = Some (strided n s).
Proof. intros. apply out_size_half_pad; lia. Qed.

Lemma out_size_pointwise_inv n s r :
  out_size n 1 s 0 = Some r → 1 ≤ s ∧ 1 ≤ n ∧ r = strided n s.
Proof.
  intros Hr. assert (1 ≤ s ∧ 1 ≤ n) as [Hs Hn].
  { unfold out_size in Hr. case_decide; [lia|done]. }
  rewrite out_size_pointwise in Hr by done. by injection Hr as <-.
Qed.

Lemma main_branch_shape_image i o k s bn x (N : option Z) H W :
  1 ≤ k → k `mod` 2 = 1 → 1 ≤ s → 1 ≤ o →
  shape x = image_shape N i H W → 1 ≤ H → 1 ≤ W →
  norm_ok_image rt bn N (strided H s) (strided W s) →
  ∃ y, BasicBlock.main_branch rt (BasicBlock.__init__ i o k s bn) x = Some y
       ∧ shape y = image_shape N o (strided H s) (strided W s).
Proof.
  intros Hk Hodd Hs Ho Hx HH HW Hok. unfold BasicBlock.main_branch.
  rewrite BasicBlock_conv1, BasicBlock_conv2.
  destruct (conv_bn_shape_image rt (mkConv2d i o k s (k `div` 2) (negb bn)) bn x
              N i H W (strided H s) (strided W s))
    as (y & -> & Hy); cbn [in_channels out_channels kernel_size stride padding];
    auto using out_size_odd.
  cbn [mbind option_bind].
  destruct (conv_bn_shape_image rt (mkConv2d o o k 1 (k `div` 2) (negb bn)) false
              (relu y) N o (strided H s) (strided W s)
              (strided H s) (strided W s))
    as (z & Hz & Hsz); cbn [in_channels out_channels kernel_size stride padding];
    auto using strided_pos.
  - rewrite <- (strided_1 (strided H s)) at 2.
    apply out_size_odd; auto using strided_pos with lia.
  - rewrite <- (strided_1 (strided W s)) at 2.
    apply out_size_odd; auto using strided_pos with lia.
  - intros ?. done.
  - exists z. split; [exact Hz | exact Hsz].
Qed.

Lemma main_branch_shape i o k s bn x N H W :
  1 ≤ k → k `mod` 2 = 1 → 1 ≤ s → 1 ≤ o →
  shape x = [N; i; H; W] → 1 ≤ H → 1 ≤ W →
  norm_ok rt bn N (strided H s) (strided W s) →
  ∃ y, BasicBlock.main_branch rt (BasicBlock.__init__ i o k s bn) x = Some y
       ∧ shape y = [N; o; strided H s; strided W s].
Proof.
  intros. apply (main_branch_shape_image i o k s bn x (Some N));
    auto using norm_ok_image_batch.
Qed.

Lemma shortcut_shape i o k s bn x N H W :
  1 ≤ s → 1 ≤ o → shape x = [N; i; H; W] → 1 ≤ H → 1 ≤ W →
  norm_ok rt bn N (strided H s) (strided W s) →
  ∃ y, Sequential_forward rt
         (BasicBlock.shortcut (BasicBlock.__init__ i o k s bn)) x = Some y
       ∧ shape y = [N; o; strided H s; strided W s].
Proof.
  intros Hs Ho Hx HH HW Hok. rewrite BasicBlock_shortcut_cases.
  destruct (bool_decide (s ≠ 1) || bool_decide (i ≠ o)) eqn:E.
  - apply (conv_bn_shape rt (mkConv2d i o 1 s 0 false) bn x N i H W);
      cbn [in_channels out_channels kernel_size stride padding];
      auto using out_size_pointwise.
  - apply orb_false_iff in E as [E1 E2].
    apply bool_decide_eq_false in E1, E2.
    assert (s = 1) as -> by (destruct (decide (s = 1)); naive_solver).
    assert (i = o) as -> by (destruct (decide (i = o)); naive_solver).
    exists x. cbn. by rewrite !strided_1.
Qed.

(** Where the shortcut is a projection and returns, the main branch
    returns a tensor of the same shape. *)
Lemma projection_matches_main_branch i o k s bn x y :
  1 ≤ k → k `mod` 2 = 1 → ¬ (i = o ∧ s = 1) →
  Sequential_forward rt
    (BasicBlock.shortcut (BasicBlock.__init__ i o k s bn)) x = Some y →
  ∃ z, BasicBlock.main_branch rt (BasicBlock.__init__ i o k s bn) x = Some z
       ∧ shape z = shape y.
Proof.
  intros Hk Hodd Hne. rewrite BasicBlock_shortcut_projection by done.
  intros (N & H & W & H' & W' & Hx & Ho & HH & HW & Hy & Hok)%conv_bn_inv.
  cbn [in_channels out_channels kernel_size stride padding] in *.
  apply out_size_pointwise_inv in HH as (Hs & HH & ->).
  apply out_size_pointwise_inv in HW as (_ & HW & ->).
  destruct (main_branch_shape_image i o k s bn x N H W) as (z & Hz & Hsz); auto.
  exists z. split; [done|congruence].
Qed.

Lemma BasicBlock_forward_shape i o k s bn x N H W :
  1 ≤ k → k `mod` 2 = 1 → 1 ≤ s → 1 ≤ o →
  shape x = [N; i; H; W] → 1 ≤ H → 1 ≤ W →
  norm_ok rt bn N (strided H s) (strided W s) →
  ∃ y, BasicBlock.forward rt (BasicBlock.__init__ i o k s bn) x = Some y
       ∧ shape y = [N; o; strided H s; strided W s].
Proof.
  intros Hk Hodd Hs Ho Hx HH HW Hok. unfold BasicBlock.forward.
  destruct (shortcut_shape i o k s bn x N H W) as (identity & -> & Hid); auto.
  destruct (main_branch_shape i o k s bn x N H W) as (out & -> & Hout); auto.
  cbn [mbind option_bind].
  destruct (iadd_shape out identity) as (y & -> & Hy); [congruence|].
  cbn [mbind option_bind]. eexists. split; [done|]. cbn. congruence.
Qed.

(** A run of blocks at one width: the extent after them, whenever the
    last batch normalisation sees more than one value per channel. *)
Lemma layer_forward_replicate_exact o s bn (k : nat) x N H W :
  1 ≤ s → 1 ≤ o →
  shape x = [N; o; H; W] → 1 ≤ H → 1 ≤ W →
  norm_ok rt bn N (Nat.iter k (λ h, strided h s) H)
                  (Nat.iter k (λ w, strided w s) W) →
  ∃ y,
    ClassifyingResNet.layer_forward rt
      (replicate k (ClassifyingResNet.new_block bn o o s)) x = Some y
    ∧ shape y = [N; o; Nat.iter k (λ h, strided h s) H;
                 Nat.iter k (λ w, strided w s) W].
Proof.
  intros Hs Ho. unfold ClassifyingResNet.new_block.
  revert x H W. induction k as [|k IH]; intros x H W Hx HH HW Hok.
  - exists x. done.
  - cbn [replicate ClassifyingResNet.layer_forward].
    rewrite !Nat.iter_succ_r in Hok.
    destruct (BasicBlock_forward_shape o o 3 s bn x N H W)
      as (a & -> & Hsa); auto; [lia| |].
    { apply (norm_ok_earlier (Nat.iter k (λ h, strided h s)));
        auto using iter_strided_one, strided_pos. }
    cbn [mbind option_bind]. rewrite !Nat.iter_succ_r.
    apply (IH a _ _ Hsa); auto using strided_pos.
Qed.

Lemma layer_forward_exact bn i o n s x N H W :
  1 ≤ s → 1 ≤ o →
  shape x = [N; i; H; W] → 1 ≤ H → 1 ≤ W →
  norm_ok rt bn N (stage_extent n s H) (stage_extent n s W) →
  ∃ y,
    ClassifyingResNet.layer_forward rt
      (ClassifyingResNet._make_layer bn i o n s) x = Some y
    ∧ shape y = [N; o; stage_extent n s H; stage_extent n s W].
Proof.
  intros Hs Ho Hx HH HW. unfold stage_extent.
  replace (Z.to_nat (Z.max 1 n)) with (S (Z.to_nat (n - 1))) by lia.
  rewrite !Nat.iter_succ_r. intros Hok.
  rewrite make_layer_blocks. cbn [ClassifyingResNet.layer_forward].
  unfold ClassifyingResNet.new_block.
  destruct (BasicBlock_forward_shape i o 3 s bn x N H W)
    as (a & -> & Hsa); auto; [lia| |].
  { apply (norm_ok_earlier (Nat.iter (Z.to_nat (n - 1)) (λ h, strided h s)));
      auto using iter_strided_one, strided_pos. }
  cbn [mbind option_bind].
  apply (layer_forward_replicate_exact o s bn _ a N _ _ Hs Ho Hsa);
    auto using strided_pos.
Qed.

Lemma ResNet_init_eq i nc c0 c1 c2 c3 n0 n1 n2 n3 nr s0 s1 s2 s3 sr bn :
  0 ≤ i → 0 ≤ nc → 0 ≤ c0 → 0 ≤ c1 → 0 ≤ c2 → 0 ≤ c3 →
  ClassifyingResNet.__init__ i nc [c0; c1; c2; c3]
    (n0 :: n1 :: n2 :: n3 :: nr) (s0 :: s1 :: s2 :: s3 :: sr) bn
  = Some (ClassifyingResNet.mk bn
            (conv_bn (mkConv2d i i 7 2 3 (negb bn)) bn)
            (mkMaxPool2d 3 2 1)
            (ClassifyingResNet._make_layer bn i c0 n0 s0)
            (ClassifyingResNet._make_layer bn c0 c1 n1 s1)
            (ClassifyingResNet._make_layer bn c1 c2 n2 s2)
            (ClassifyingResNet._make_layer bn c2 c3 n3 s3)
            (1, 1) (mkLinear c3 nc)).
Proof.
  intros. unfold ClassifyingResNet.__init__.
  repeat match goal with
  | |- context [py_index ?l ?j] =>
      let r := eval vm_compute in (py_index l j) in
      change (py_index l j) with r; cbn [mbind option_bind]
  end.
  rewrite decide_True by (repeat constructor; done).
  by destruct bn.
Qed.

(** The stem keeps the channel count and halves the extent twice. *)
Lemma stem_shape (self : ClassifyingResNet.t) i bn x N H W :
  ClassifyingResNet.conv_block self = conv_bn (mkConv2d i i 7 2 3 (negb bn)) bn →
  ClassifyingResNet.max_pool self = mkMaxPool2d 3 2 1 →
  1 ≤ i →
  shape x = [N; i; H; W] → 1 ≤ H → 1 ≤ W →
  norm_ok rt bn N (strided H 2) (strided W 2) →
  ∃ y, ClassifyingResNet.stem rt self x = Some y
       ∧ shape y = [N; i; strided (strided H 2) 2; strided (strided W 2) 2].
Proof.
  intros Hcb Hmp Hi Hx HH HW Hok. unfold ClassifyingResNet.stem. rewrite Hcb, Hmp.
  destruct (conv_bn_shape rt (mkConv2d i i 7 2 3 (negb bn)) bn x
              N i H W (strided H 2) (strided W 2))
    as (y & -> & Hy); cbn [in_channels out_channels kernel_size stride padding];
    auto; try (apply out_size_half_pad; lia).
  cbn [mbind option_bind].
  destruct (max_pool2d_shape (mkMaxPool2d 3 2 1) y N i
              (strided H 2) (strided W 2)
              (strided (strided H 2) 2) (strided (strided W 2) 2))
    as (z & -> & Hz);
    cbn [pool_kernel_size pool_stride pool_padding];
    auto using strided_pos with lia;
    try (apply out_size_half_pad; auto using strided_pos with lia).
  cbn [mbind option_bind]. eexists. split; [done|]. exact Hz.
Qed.

(** Whatever the stem returns has the channel count of its input: a
    batch, or a single image when there is no batch normalisation. *)
Lemma stem_inv (self : ClassifyingResNet.t) i bn x y :
  ClassifyingResNet.conv_block self = conv_bn (mkConv2d i i 7 2 3 (negb bn)) bn →
  ClassifyingResNet.stem rt self x = Some y →
  ∃ (N : option Z) H W H' W',
    shape x = image_shape N i H W ∧ 1 ≤ H ∧ 1 ≤ W
    ∧ shape y = image_shape N i H' W'
    ∧ (bn = true → is_Some N).
Proof.
  intros Hcb. unfold ClassifyingResNet.stem. rewrite Hcb. intros Hy.
  destruct (Sequential_forward rt _ x) as [a|] eqn:Ha; [|done]. cbn in Hy.
  destruct (max_pool2d _ a) as [b|] eqn:Hb; [|done]. cbn in Hy.
  injection Hy as <-.
  apply conv_bn_inv in Ha
    as (N & H & W & H1 & W1 & Hx & _ & HH1 & HW1 & Hsa & Hok).
  cbn [in_channels out_channels kernel_size stride padding] in *.
  apply out_size_inv in HH1 as (_ & _ & _ & HH & _).
  apply out_size_inv in HW1 as (_ & _ & _ & HW & _).
  apply max_pool2d_inv in Hb as (N' & C & H2 & W2 & H' & W' & Hsa' & Hsb).
  assert (N' = N ∧ C = i) as [-> ->].
  { rewrite Hsa in Hsa'. destruct N, N'; cbn in Hsa'; by simplify_eq. }
  exists N, H, W, H', W'. repeat split; [done|lia|lia|done|].
  intros Hbn. destruct (Hok Hbn) as (n & -> & _). eauto.
Qed.

Lemma adaptive_avg_pool2d_shape out x N C H W :
  shape x = [N; C; H; W] → 1 ≤ out.1 → 1 ≤ out.2 → 1 ≤ H → 1 ≤ W →
  ∃ y, adaptive_avg_pool2d rt out x = Some y ∧ shape y = [N; C; out.1; out.2].
Proof.
  destruct out as [OH OW]. cbn [fst snd]. intros Hx ? ? ? ?.
  unfold adaptive_avg_pool2d. rewrite Hx. cbn [image_dims].
  rewrite decide_True by lia. eauto.
Qed.

Lemma flatten1_shape x N C H W :
  shape x = [N; C; H; W] →
  ∃ y, flatten1 x = Some y ∧ shape y = [N; C * H * W].
Proof.
  intros Hx. unfold flatten1. rewrite Hx. eexists. split; [done|].
  cbn. do 2 f_equal. lia.
Qed.

Lemma linear_shape l x N d :
  shape x = [N; d] → d = in_features l →
  ∃ y, linear rt l x = Some y ∧ shape y = [N; out_features l].
Proof.
  intros Hx ->. unfold linear. rewrite Hx. cbn.
  rewrite decide_True by done. eauto.
Qed.

Lemma final_extent_pos n0 n1 n2 n3 s0 s1 s2 s3 h :
  1 ≤ s0 → 1 ≤ s1 → 1 ≤ s2 → 1 ≤ s3 → 1 ≤ h →
  1 ≤ final_extent [n0; n1; n2; n3] [s0; s1; s2; s3] h.
Proof.
  intros. cbn [final_extent take zip zip_with foldl fst snd].
  repeat apply stage_extent_pos; try done. repeat apply strided_pos; lia.
Qed.

Lemma ResNet_forward_exact i nc c0 c1 c2 c3 n0 n1 n2 n3 s0 s1 s2 s3 bn x N H W :
  1 ≤ s0 → 1 ≤ s1 → 1 ≤ s2 → 1 ≤ s3 →
  1 ≤ i → 1 ≤ c0 → 1 ≤ c1 → 1 ≤ c2 → 1 ≤ c3 →
  shape x = [N; i; H; W] → 1 ≤ H → 1 ≤ W →
  norm_ok rt bn N (final_extent [n0; n1; n2; n3] [s0; s1; s2; s3] H)
                  (final_extent [n0; n1; n2; n3] [s0; s1; s2; s3] W) →
  ∃ y,
    ClassifyingResNet.forward rt
      (ClassifyingResNet.mk bn
         (conv_bn (mkConv2d i i 7 2 3 (negb bn)) bn)
         (mkMaxPool2d 3 2 1)
         (ClassifyingResNet._make_layer bn i c0 n0 s0)
         (ClassifyingResNet._make_layer bn c0 c1 n1 s1)
         (ClassifyingResNet._make_layer bn c1 c2 n2 s2)
         (ClassifyingResNet._make_layer bn c2 c3 n3 s3)
         (1, 1) (mkLinear c3 nc)) x = Some y
    ∧ shape y = [N; nc].
Proof.
  intros Hs0 Hs1 Hs2 Hs3 Hi Hc0 Hc1 Hc2 Hc3 Hx HH HW Hok.
  cbn [final_extent foldl] in Hok.
  set (e0 := λ h, strided (strided h 2) 2) in *.
  set (e1 := stage_extent n0 s0) in *. set (e2 := stage_extent n1 s1) in *.
  set (e3 := stage_extent n2 s2) in *. set (e4 := stage_extent n3 s3) in *.
  assert (∀ h, 1 ≤ h → 1 ≤ strided h 2) as P2 by (intros; by apply strided_pos).
  assert (∀ h, 1 ≤ h → 1 ≤ e0 h) as P0 by (intros; unfold e0; auto).
  assert (∀ h, 1 ≤ h → 1 ≤ e1 h) as P1 by (intros; by apply stage_extent_pos).
  assert (∀ h, 1 ≤ h → 1 ≤ e2 h) as P2' by (intros; by apply stage_extent_pos).
  assert (∀ h, 1 ≤ h → 1 ≤ e3 h) as P3 by (intros; by apply stage_extent_pos).
  assert (e1 1 = 1 ∧ e2 1 = 1 ∧ e3 1 = 1 ∧ e4 1 = 1) as (O1 & O2 & O3 & O4)
    by (repeat split; by apply stage_extent_one).
  assert (strided 1 2 = 1) as Os by (by apply strided_one).
  assert (norm_ok rt bn N (e3 (e2 (e1 (e0 H)))) (e3 (e2 (e1 (e0 W))))) as Hok3
    by (apply (norm_ok_earlier e4); auto).
  assert (norm_ok rt bn N (e2 (e1 (e0 H))) (e2 (e1 (e0 W)))) as Hok2
    by (apply (norm_ok_earlier e3); auto).
  assert (norm_ok rt bn N (e1 (e0 H)) (e1 (e0 W))) as Hok1
    by (apply (norm_ok_earlier e2); auto).
  assert (norm_ok rt bn N (e0 H) (e0 W)) as Hok0
    by (apply (norm_ok_earlier e1); auto).
  assert (norm_ok rt bn N (strided H 2) (strided W 2)) as Hoks
    by (apply (norm_ok_earlier (λ h, strided h 2)); auto).
  unfold ClassifyingResNet.forward.
  match goal with
  | |- context [ClassifyingResNet.stem rt ?self x] =>
      destruct (stem_shape self i bn x N H W) as (x0 & -> & Hx0);
        [reflexivity | reflexivity | done..|]
  end.
  cbn [mbind option_bind ClassifyingResNet.layer1 ClassifyingResNet.layer2
       ClassifyingResNet.layer3 ClassifyingResNet.layer4
       ClassifyingResNet.global_pool ClassifyingResNet.fc].
  fold (e0 H) (e0 W) in Hx0.
  destruct (layer_forward_exact bn i c0 n0 s0 x0 N _ _ Hs0 Hc0 Hx0)
    as (x1 & -> & Hx1); auto.
  cbn [mbind option_bind].
  destruct (layer_forward_exact bn c0 c1 n1 s1 x1 N _ _ Hs1 Hc1 Hx1)
    as (x2 & -> & Hx2); auto.
  cbn [mbind option_bind].
  destruct (layer_forward_exact bn c1 c2 n2 s2 x2 N _ _ Hs2 Hc2 Hx2)
    as (x3 & -> & Hx3); auto.
  cbn [mbind option_bind].
  destruct (layer_forward_exact bn c2 c3 n3 s3 x3 N _ _ Hs3 Hc3 Hx3)
    as (x4 & -> & Hx4); auto.
  cbn [mbind option_bind].
  destruct (adaptive_avg_pool2d_shape (1, 1) x4 N c3 _ _ Hx4)
    as (x5 & -> & Hx5); cbn [fst snd]; try lia;
    [by apply stage_extent_pos; auto..|].
  cbn [mbind option_bind fst snd] in *.
  destruct (flatten1_shape x5 _ _ _ _ Hx5) as (x6 & -> & Hx6).
  cbn [mbind option_bind].
  apply (linear_shape (mkLinear c3 nc) x6 N (c3 * 1 * 1)); [done|cbn; lia].
Qed.

End ResNetShapes.

(** ** Average pooling of a constant map *)

Section PoolingFacts.















End PoolingFacts.

(** ** The autograd state and the projection of the wrapper *)

Section AutogradFacts.

Lemma freeze_all_lookup (σ : Autograd) (ps : list param) (p : param) :
  requires_grad (foldl ClassGuidedUNet.freeze σ ps) !! p
  = if decide (p ∈ ps) then Some false else requires_grad σ !! p.
Proof.
  revert σ. induction ps as [|q ps IH]; intros σ; cbn [foldl].
  - rewrite decide_False; [done|]. apply not_elem_of_nil.
  - rewrite IH. cbn [ClassGuidedUNet.freeze requires_grad].
    destruct (decide (p ∈ ps)) as [Hin|Hnin].
    + rewrite decide_True; [done|]. by right.
    + destruct (decide (p = q)) as [->|Hne].
      * rewrite decide_True by left. apply lookup_insert_eq.
      * rewrite decide_False; [by apply lookup_insert_ne|].
        intros [?|?]%elem_of_cons; done.
Qed.

Lemma freeze_all_grad_enabled (σ : Autograd) (ps : list param) :
  grad_enabled (foldl ClassGuidedUNet.freeze σ ps) = grad_enabled σ.
Proof. revert σ. induction ps as [|q ps IH]; intros σ; cbn; [done|]. by rewrite IH. Qed.

Lemma new_parameter_fresh (live : gset param) (σ : Autograd) :
  let p := fst (ClassGuidedUNet.new_parameter live σ) in
  (p ∉ live) ∧ requires_grad σ !! p = None.
Proof.
  cbv zeta. unfold ClassGuidedUNet.new_parameter. cbn [fst].
  pose proof (is_fresh (live ∪ dom (requires_grad σ))) as Hfresh.
  split.
  - intros Hin. apply Hfresh, elem_of_union. by left.
  - apply not_elem_of_dom. intros Hin. apply Hfresh, elem_of_union. by right.
Qed.

Lemma init_requires_grad classifier unet feature_channels (σ : Autograd) (p : param) :
  let live : gset param :=
    list_to_set (parameters classifier) ∪ list_to_set (parameters unet) in
  let weight := fst (ClassGuidedUNet.new_parameter live σ) in
  let σ1 := snd (ClassGuidedUNet.new_parameter live σ) in
  let bias := fst (ClassGuidedUNet.new_parameter live σ1) in
  ClassGuidedUNet.fc_parameters
    (fst (ClassGuidedUNet.__init__ classifier unet feature_channels σ))
  = [weight; bias]
  ∧ requires_grad
      (snd (ClassGuidedUNet.__init__ classifier unet feature_channels σ)) !! p
    = if decide (p ∈ parameters classifier) then Some false
      else if decide (p = bias) then Some true
      else if decide (p = weight) then Some true
      else requires_grad σ !! p.
Proof.
  cbv zeta. unfold ClassGuidedUNet.__init__.
  destruct (ClassGuidedUNet.new_parameter _ σ) as [weight σ1] eqn:E1.
  destruct (ClassGuidedUNet.new_parameter _ σ1) as [bias σ2] eqn:E2.
  cbn [fst snd ClassGuidedUNet.fc_parameters]. rewrite !E2. cbn [fst snd].
  split; [done|].
  rewrite freeze_all_lookup. case_decide; [done|].
  unfold ClassGuidedUNet.new_parameter in E1, E2.
  injection E2 as <- <-. injection E1 as <- <-.
  cbn [requires_grad]. rewrite !lookup_insert. repeat case_decide; congruence.
Qed.

End AutogradFacts.

Section GuideFacts.

Context (rt : Runtime).

Lemma init_fields classifier unet feature_channels (σ : Autograd) :
  let self := fst (ClassGuidedUNet.__init__ classifier unet feature_channels σ) in
  ClassGuidedUNet.classifier self = classifier
  ∧ ClassGuidedUNet.unet self = unet
  ∧ ClassGuidedUNet.fc self = mkLinear 10 (feature_channels * 12 * 12).
Proof.
  cbv zeta. unfold ClassGuidedUNet.__init__.
  destruct (ClassGuidedUNet.new_parameter _ σ) as [weight σ1].
  destruct (ClassGuidedUNet.new_parameter _ σ1) as [bias σ2]. done.
Qed.

(** The reshape of [forward] on the output of the projection. *)
Lemma view_projection (f N : Z) (y : Tensor) :
  1 ≤ f → shape y = [N; f * 12 * 12] →
  view [-1; (f * 12 * 12) `div` (12 * 12); 12; 12] y
  = Some (mkTensor [N; f; 12; 12] (data y)).
Proof.
  intros Hf Hy.
  assert ((f * 12 * 12) `div` (12 * 12) = f) as ->.
  { rewrite <- Z.mul_assoc. apply Z.div_mul. lia. }
  assert (filter (λ d, d ≠ -1) [-1; f; 12; 12] = [f; 12; 12]) as Hknown.
  { rewrite !filter_cons, filter_nil.
    rewrite (decide_True (P := f ≠ -1)) by lia. reflexivity. }
  assert (filter (λ d, d = -1) [-1; f; 12; 12] = [-1]) as Hfree.
  { rewrite !filter_cons, filter_nil.
    rewrite (decide_False (P := f = -1)) by lia. reflexivity. }
  assert (numel [N; f * 12 * 12] = N * (f * 144)) as Hnumel by (cbn; lia).
  assert (numel [f; 12; 12] = f * 144) as Hnum' by (cbn; lia).
  unfold view. rewrite Hy, Hknown, Hfree, Hnumel, Hnum'.
  rewrite decide_True by (repeat constructor; lia).
  cbn [length]. rewrite Z.div_mul, Z.mod_mul by lia.
  rewrite decide_True by (split; [lia|done]).
  do 2 f_equal. cbn [fmap list_fmap].
  rewrite (decide_False (P := f = -1)) by lia. reflexivity.
Qed.

End GuideFacts.

(** ** Worked examples *)

Example max_pool2d_4x4 :
  max_pool2d (mkMaxPool2d 3 2 1)
    (mkTensor [1; 1; 4; 4]
       (Qc_of_Z <$> [1; -2; 3; 4; 5; 6; -7; 8; -9; -10; -11; -12; 13; 14; 15; -16]))
  = Some (mkTensor [1; 1; 2; 2] (Qc_of_Z <$> [6; 8; 14; 15])).
Proof. vm_compute. reflexivity. Qed.

Example iadd_broadcasts_row :
  (λ y, (shape y, this <$> data y))
    <$> iadd (mkTensor [2; 2] (Qc_of_Z <$> [1; 2; 3; 4]))
             (mkTensor [1; 2] (Qc_of_Z <$> [10; 20]))
  = Some ([2; 2], inject_Z <$> [11; 22; 13; 24]).
Proof. vm_compute. reflexivity. Qed.

Example iadd_rejects_smaller_map :
  iadd (zeros [1; 16; 6; 6]) (zeros [1; 16; 4; 4]) = None.
Proof. vm_compute. reflexivity. Qed.

Example even_kernel_block_fails :
  BasicBlock.forward (zero_runtime true) (BasicBlock.__init__ 3 16 2 1 true)
    (zeros [1; 3; 4; 4]) = None.
Proof. vm_compute. reflexivity. Qed.

(** ** The claims *)

(** C1. In a [BasicBlock] built with [use_batchnorm=True], the module
    [self.conv2] holds the convolution alone: the [BatchNorm2d] is
    appended to the local list [conv_block2] after the Sequential was
    built from it, so it ends up in the list and not in the module.
    The second branch that [forward] applies is therefore the bare
    convolution after the ReLU, while [conv1] is normalised and the
    shortcut is normalised whenever it is a projection. *)
Theorem C1_conv2_without_normalization (i o k s : Z) :
  let self := BasicBlock.__init__ i o k s true in
  let frame := BasicBlock.__init__frame i o k s true in
  BasicBlock.conv2 self = [LConv2d (mkConv2d o o k 1 (k `div` 2) false)]
  ∧ has_norm (BasicBlock.conv2 self) = false
  ∧ BasicBlock.conv_block2 frame = BasicBlock.conv2 self ++ [LBatchNorm2d o]
  ∧ has_norm (BasicBlock.conv1 self) = true
  ∧ has_norm (BasicBlock.shortcut self)
    = bool_decide (s ≠ 1) || bool_decide (i ≠ o)
  ∧ ∀ rt x,
      BasicBlock.main_branch rt self x
      = (out ← Sequential_forward rt (BasicBlock.conv1 self) x;
         conv2d rt (mkConv2d o o k 1 (k `div` 2) false) (relu out)).
Proof.
  cbv zeta. unfold BasicBlock.main_branch.
  rewrite BasicBlock_conv_block2, BasicBlock_conv1, BasicBlock_conv2,
    BasicBlock_shortcut_cases.
  repeat split.
  - by destruct (bool_decide (s ≠ 1) || bool_decide (i ≠ o)).
  - intros rt x. destruct (Sequential_forward rt _ x) as [out|]; cbn; [|done].
    by destruct (conv2d rt _ (relu out)).
Qed.




(** C3. The stem in the order of the specification (convolution block,
    ReLU, max pooling) computes what the stem of [forward] computes
    (convolution block, max pooling, ReLU), on every input and for every
    convolution and normalisation kernel, a failure of either included:
    ReLU commutes with max pooling. *)
Theorem C3_stem_order_equivalent (rt : Runtime) (self : ClassifyingResNet.t)
    (x : Tensor) :
  ClassifyingResNet.stem_spec rt self x = ClassifyingResNet.stem rt self x.
Proof.
  unfold ClassifyingResNet.stem_spec, ClassifyingResNet.stem.
  destruct (Sequential_forward rt _ x) as [y|]; cbn; [|done].
  rewrite relu_max_pool2d. by destruct (max_pool2d _ y).
Qed.

(** C4, as the code has it.  When [ClassGuidedUNet.__init__] returns,
    every parameter of the classifier has [requires_grad = False]; a
    parameter of the U-Net that is not also a parameter of the
    classifier keeps the flag it had; the two parameters of the
    projection [fc] are new objects, shared with neither module, with
    gradient tracking on; and [forward] changes no flag and leaves the
    gradient mode as it found it. *)
Theorem C4_classifier_frozen (classifier : Module (Tensor → option Tensor))
    (unet : Module (Tensor → Tensor → option Tensor)) (feature_channels : Z)
    (σ : Autograd) :
  let self := fst (ClassGuidedUNet.__init__ classifier unet feature_channels σ) in
  let σ' := snd (ClassGuidedUNet.__init__ classifier unet feature_channels σ) in
  (∀ p, p ∈ parameters classifier → requires_grad σ' !! p = Some false)
  ∧ (∀ p, p ∈ parameters unet → (p ∉ parameters classifier) →
       requires_grad σ' !! p = requires_grad σ !! p)
  ∧ (∀ p, p ∈ ClassGuidedUNet.fc_parameters self →
       requires_grad σ' !! p = Some true
       ∧ (p ∉ parameters classifier) ∧ (p ∉ parameters unet))
  ∧ (∀ rt x σ1,
       requires_grad (snd (ClassGuidedUNet.forward rt self x σ1)) = requires_grad σ1
       ∧ grad_enabled (snd (ClassGuidedUNet.forward rt self x σ1)) = grad_enabled σ1).
Proof.
  cbv zeta.
  set (live := (list_to_set (parameters classifier)
                ∪ list_to_set (parameters unet) : gset param)).
  pose proof (new_parameter_fresh live σ) as [Hw _].
  pose proof (new_parameter_fresh live
                (snd (ClassGuidedUNet.new_parameter live σ))) as [Hb _].
  split; [|split; [|split]].
  - intros p Hp.
    destruct (init_requires_grad classifier unet feature_channels σ p) as [_ ->].
    by rewrite decide_True.
  - intros p Hu Hc.
    destruct (init_requires_grad classifier unet feature_channels σ p) as [_ ->].
    rewrite decide_False by done.
    assert (p ∈ live) as Hlive
      by (unfold live; rewrite elem_of_union, !elem_of_list_to_set; auto).
    rewrite !decide_False; [done|..]; intros ->; done.
  - intros p Hp.
    destruct (init_requires_grad classifier unet feature_channels σ p)
      as [Hfc ->].
    rewrite Hfc in Hp. fold live in Hp.
    assert (p ∉ live) as Hlive.
    { apply elem_of_cons in Hp as [->|Hp]; [done|].
      apply list_elem_of_singleton in Hp as ->. done. }
    assert ((p ∉ parameters classifier) ∧ (p ∉ parameters unet)) as [??].
    { split; intros Hin; apply Hlive; unfold live;
        rewrite elem_of_union, !elem_of_list_to_set; auto. }
    split; [|done]. rewrite decide_False by done. fold live.
    apply elem_of_cons in Hp as [->|Hp].
    + case_decide; [done|]. by rewrite decide_True.
    + apply list_elem_of_singleton in Hp as ->. by rewrite decide_True.
  - intros rt x σ1. done.
Qed.

Lemma C4_classifier_frozen_witness :
  let classifier := mkModule [1%positive; 2%positive] (λ x : Tensor, Some x) in
  let unet := mkModule [2%positive; 3%positive] (λ x _ : Tensor, Some x) in
  let σ := mkAutograd
             {[1%positive := true; 2%positive := true; 3%positive := true]} true in
  let σ' := snd (ClassGuidedUNet.__init__ classifier unet 32 σ) in
  requires_grad σ' !! 1%positive = Some false
  ∧ requires_grad σ' !! 3%positive = requires_grad σ !! 3%positive.
Proof.
  cbv zeta.
  destruct (C4_classifier_frozen
              (mkModule [1%positive; 2%positive] (λ x : Tensor, Some x))
              (mkModule [2%positive; 3%positive] (λ x _ : Tensor, Some x)) 32
              (mkAutograd
                 {[1%positive := true; 2%positive := true; 3%positive := true]}
                 true))
    as (Hfrozen & Hkept & _).
  split.
  - apply Hfrozen. cbn. by left.
  - apply Hkept; cbn.
    + right. by left.
    + intros Hin. apply elem_of_cons in Hin as [Hin|Hin]; [discriminate|].
      apply elem_of_cons in Hin as [Hin|Hin]; [discriminate|].
      by apply not_elem_of_nil in Hin.
Defined.

(** C4 as stated fails when the U-Net holds a parameter object of the
    classifier (shared weights): freezing the classifier turns its
    gradient tracking off although it was on before. *)
Lemma C4_counterexample :
  ¬ (∀ (classifier : Module (Tensor → option Tensor))
       (unet : Module (Tensor → Tensor → option Tensor)) (feature_channels : Z)
       (σ : Autograd) (p : param),
       p ∈ parameters unet →
       requires_grad σ !! p = Some true →
       requires_grad
         (snd (ClassGuidedUNet.__init__ classifier unet feature_channels σ)) !! p
       = Some true).
Proof.
  intros Hclaim.
  specialize (Hclaim (mkModule [1%positive] (λ x, Some x))
                (mkModule [1%positive] (λ x _, Some x)) 32
                (mkAutograd {[1%positive := true]} true) 1%positive).
  vm_compute in Hclaim.
  specialize (Hclaim ltac:(by left) eq_refl). discriminate Hclaim.
Qed.

(** C5, as the code has it.  A configuration is valid when it has four
    positive stage widths, at least four block counts, four positive
    strides and a positive number of classes.  For every valid
    configuration and every batch size, [forward] on an input of shape
    (N, 3, 96, 96) returns a tensor of shape (N, num_classes), except
    when the network has batch normalisation, is in training mode, the
    batch is a single image and the strides shrink the map to 1x1 by
    the end of the last stage: [norm_ok] at the final extent says that
    this is not the case. *)
Theorem C5_forward_output_shape (rt : Runtime) (num_classes : Z)
    (block_channels num_blocks strides : list Z) (use_batchnorm : bool)
    (N : Z) (x : Tensor) :
  length block_channels = 4%nat →
  Forall (λ c, 1 ≤ c) block_channels →
  (4 ≤ length num_blocks)%nat →
  (4 ≤ length strides)%nat →
  Forall (λ s, 1 ≤ s) (take 4 strides) →
  1 ≤ num_classes →
  1 ≤ N →
  norm_ok rt use_batchnorm N (final_extent num_blocks strides 96)
                             (final_extent num_blocks strides 96) →
  shape x = [N; 3; 96; 96] →
  ∃ self y,
    ClassifyingResNet.__init__ 3 num_classes block_channels num_blocks strides
      use_batchnorm = Some self
    ∧ ClassifyingResNet.forward rt self x = Some y
    ∧ shape y = [N; num_classes].
Proof.
  intros Hbc Hcpos Hnb Hst Hpos Hnc _ Hok Hx.
  destruct block_channels as [|c0 [|c1 [|c2 [|c3 [|]]]]]; try discriminate.
  destruct num_blocks as [|n0 [|n1 [|n2 [|n3 nr]]]]; cbn in Hnb; try lia.
  destruct strides as [|s0 [|s1 [|s2 [|s3 sr]]]]; cbn in Hst; try lia.
  cbn in Hpos.
  rewrite !list.Forall_cons in Hpos. destruct Hpos as (? & ? & ? & ? & _).
  rewrite !list.Forall_cons in Hcpos. destruct Hcpos as (? & ? & ? & ? & _).
  rewrite ResNet_init_eq by lia. eexists.
  destruct (ResNet_forward_exact rt 3 num_classes c0 c1 c2 c3 n0 n1 n2 n3
              s0 s1 s2 s3 use_batchnorm x N 96 96) as (y & Hy & Hsy);
    auto with lia.
  exists y. eauto.
Qed.

(** The default network on a single image in training mode: the map
    entering the last batch normalisation is 6x6. *)
Lemma C5_forward_output_shape_witness :
  ∃ self y,
    ClassifyingResNet.__init__ 3 10 [16; 32; 64; 128] [2; 2; 2; 2] [2; 1; 1; 1]
      true = Some self
    ∧ ClassifyingResNet.forward (zero_runtime true) self (zeros [1; 3; 96; 96])
      = Some y
    ∧ shape y = [1; 10].
Proof.
  apply (C5_forward_output_shape (zero_runtime true) 10 [16; 32; 64; 128]
           [2; 2; 2; 2] [2; 1; 1; 1] true 1 (zeros [1; 3; 96; 96])).
  - reflexivity.
  - repeat constructor; lia.
  - cbn; lia.
  - cbn; lia.
  - repeat constructor; lia.
  - lia.
  - lia.
  - intros _ _. vm_compute. discriminate.
  - reflexivity.
Defined.

(** C5 as stated fails for a single image in training mode: with stride
    2 in every stage the map reaches 1x1 inside [layer3], where the
    batch normalisation of the block is left with one value per channel
    and the library raises. *)
Lemma C5_counterexample :
  ¬ (∀ (rt : Runtime) (num_classes : Z)
       (block_channels num_blocks strides : list Z) (use_batchnorm : bool)
       (N : Z) (x : Tensor),
       length block_channels = 4%nat →
       Forall (λ c, 1 ≤ c) block_channels →
       (4 ≤ length num_blocks)%nat →
       (4 ≤ length strides)%nat →
       Forall (λ s, 1 ≤ s) (take 4 strides) →
       1 ≤ num_classes →
       1 ≤ N →
       shape x = [N; 3; 96; 96] →
       ∃ self y,
         ClassifyingResNet.__init__ 3 num_classes block_channels num_blocks
           strides use_batchnorm = Some self
         ∧ ClassifyingResNet.forward rt self x = Some y
         ∧ shape y = [N; num_classes]).
Proof.
  intros Hclaim.
  destruct (Hclaim (zero_runtime true) 10 [16; 32; 64; 128] [2; 2; 2; 2]
              [2; 2; 2; 2] true 1 (zeros [1; 3; 96; 96]))
    as (self & y & Hinit & Hfwd & _);
    [reflexivity | repeat constructor; lia | cbn; lia | cbn; lia
    | repeat constructor; lia | lia | lia | reflexivity |].
  vm_compute in Hinit. injection Hinit as <-.
  vm_compute in Hfwd. discriminate Hfwd.
Qed.



(** C7. With the default [feature_channels = 32] and a classifier that
    returns a tensor of shape (N, 10) on the image [x] of shape
    (N, Cin, 96, 96), [forward] hands the U-Net the image and a
    conditioning tensor of shape (N, 32, 12, 12); with the stub U-Net
    that asserts this shape and returns the image, it returns [x]. *)
Theorem C7_end_to_end (rt : Runtime)
    (classifier : Module (Tensor → option Tensor)) (σ0 σ : Autograd)
    (N Cin : Z) (x c : Tensor) :
  shape x = [N; Cin; 96; 96] →
  call classifier x = Some c →
  shape c = [N; 10] →
  (∃ cond,
     shape cond = [N; 32; 12; 12]
     ∧ ∀ unet,
         fst (ClassGuidedUNet.forward rt
                (fst (ClassGuidedUNet.__init__ classifier unet
                        ClassGuidedUNet.FEATURE_CHANNELS σ0)) x σ)
         = call unet x cond)
  ∧ fst (ClassGuidedUNet.forward rt
           (fst (ClassGuidedUNet.__init__ classifier (ClassGuidedUNet.stub_unet N)
                   ClassGuidedUNet.FEATURE_CHANNELS σ0)) x σ)
    = Some x.
Proof.
  intros _ Hc Hsc.
  destruct (linear_shape rt (mkLinear 10 (32 * 12 * 12)) c N 10)
    as (y & Hy & Hsy); [done..|].
  cbn [out_features] in Hsy.
  pose proof (view_projection 32 N y ltac:(lia) Hsy) as Hview.
  assert (∀ unet,
            fst (ClassGuidedUNet.forward rt
                   (fst (ClassGuidedUNet.__init__ classifier unet
                           ClassGuidedUNet.FEATURE_CHANNELS σ0)) x σ)
            = call unet x (mkTensor [N; 32; 12; 12] (data y))) as Hfwd.
  { intros unet.
    destruct (init_fields classifier unet ClassGuidedUNet.FEATURE_CHANNELS σ0)
      as (Hcl & Hun & Hfc).
    unfold ClassGuidedUNet.forward. cbn [fst]. rewrite Hcl, Hun, Hfc, Hc.
    unfold ClassGuidedUNet.FEATURE_CHANNELS. cbn [mbind option_bind out_features].
    rewrite Hy. cbn [mbind option_bind]. rewrite Hview. reflexivity. }
  split.
  - exists (mkTensor [N; 32; 12; 12] (data y)). split; [done|exact Hfwd].
  - rewrite Hfwd. cbn. by rewrite decide_True.
Qed.

Lemma C7_end_to_end_witness :
  (∃ cond,
     shape cond = [2; 32; 12; 12]
     ∧ ∀ unet,
         fst (ClassGuidedUNet.forward (zero_runtime true)
                (fst (ClassGuidedUNet.__init__
                        (ClassGuidedUNet.stub_classifier (zeros [2; 10])) unet
                        ClassGuidedUNet.FEATURE_CHANNELS (mkAutograd ∅ true)))
                (zeros [2; 3; 96; 96]) (mkAutograd ∅ true))
         = call unet (zeros [2; 3; 96; 96]) cond)
  ∧ fst (ClassGuidedUNet.forward (zero_runtime true)
           (fst (ClassGuidedUNet.__init__
                   (ClassGuidedUNet.stub_classifier (zeros [2; 10]))
                   (ClassGuidedUNet.stub_unet 2)
                   ClassGuidedUNet.FEATURE_CHANNELS (mkAutograd ∅ true)))
           (zeros [2; 3; 96; 96]) (mkAutograd ∅ true))
    = Some (zeros [2; 3; 96; 96]).
Proof.
  apply (C7_end_to_end (zero_runtime true)
           (ClassGuidedUNet.stub_classifier (zeros [2; 10]))
           (mkAutograd ∅ true) (mkAutograd ∅ true) 2 3
           (zeros [2; 3; 96; 96]) (zeros [2; 10]));
    reflexivity.
Defined.

(** C8, as the code has it.  The shortcut of a [BasicBlock] is the empty
    Sequential, the identity on every input, exactly when
    [in_channels = out_channels] and [stride = 1]; otherwise it is a 1x1
    convolution without bias at the stride of the block, followed by
    batch normalisation when asked for.  For an odd [kernel_size] (the
    default 3 among them), whenever that projection returns, the main
    branch returns a tensor of the same shape; and for positive channel
    counts both return on an input with the channels of the block
    unless a batch normalisation in training mode is left with a single
    value per channel. *)
Theorem C8_shortcut (rt : Runtime) (i o k s : Z) (bn : bool) :
  let self := BasicBlock.__init__ i o k s bn in
  (BasicBlock.shortcut self = [] ↔ i = o ∧ s = 1)
  ∧ (i = o ∧ s = 1 →
     ∀ x, Sequential_forward rt (BasicBlock.shortcut self) x = Some x)
  ∧ (¬ (i = o ∧ s = 1) →
     BasicBlock.shortcut self
     = LConv2d (mkConv2d i o 1 s 0 false)
       :: (if bn then [LBatchNorm2d o] else []))
  ∧ (1 ≤ k → k `mod` 2 = 1 → ¬ (i = o ∧ s = 1) →
     ∀ x y, Sequential_forward rt (BasicBlock.shortcut self) x = Some y →
       ∃ z, BasicBlock.main_branch rt self x = Some z ∧ shape z = shape y)
  ∧ (1 ≤ i → 1 ≤ o → 1 ≤ k → k `mod` 2 = 1 → 1 ≤ s →
     ∀ x N H W, shape x = [N; i; H; W] → 1 ≤ H → 1 ≤ W →
       norm_ok rt bn N (strided H s) (strided W s) →
       ∃ y z,
         Sequential_forward rt (BasicBlock.shortcut self) x = Some y
         ∧ BasicBlock.main_branch rt self x = Some z
         ∧ shape y = shape z
         ∧ shape z = [N; o; strided H s; strided W s]).
Proof.
  cbv zeta. split; [|split; [|split; [|split]]].
  - split.
    + intros Hnil. destruct (decide (i = o ∧ s = 1)) as [?|Hne]; [done|].
      rewrite BasicBlock_shortcut_projection in Hnil by done. discriminate.
    + intros [? ?]. by apply BasicBlock_shortcut_identity.
  - intros [? ?] x. by rewrite BasicBlock_shortcut_identity.
  - intros Hne. by rewrite BasicBlock_shortcut_projection.
  - intros Hk Hodd Hne x y. by apply projection_matches_main_branch.
  - intros Hi Ho Hk Hodd Hs x N H W Hx HH HW Hok.
    destruct (shortcut_shape rt i o k s bn x N H W) as (y & Hy & Hsy); auto.
    destruct (main_branch_shape rt i o k s bn x N H W) as (z & Hz & Hsz); auto.
    exists y, z. repeat split; congruence.
Qed.

Lemma C8_shortcut_witness :
  ∃ y z,
    Sequential_forward (zero_runtime true)
      (BasicBlock.shortcut (BasicBlock.__init__ 3 16 3 2 true))
      (zeros [1; 3; 96; 96]) = Some y
    ∧ BasicBlock.main_branch (zero_runtime true)
        (BasicBlock.__init__ 3 16 3 2 true) (zeros [1; 3; 96; 96]) = Some z
    ∧ shape y = shape z
    ∧ shape z = [1; 16; strided 96 2; strided 96 2].
Proof.
  destruct (C8_shortcut (zero_runtime true) 3 16 3 2 true)
    as (_ & _ & _ & _ & Hshape).
  apply (Hshape ltac:(lia) ltac:(lia) ltac:(lia) eq_refl ltac:(lia)
           (zeros [1; 3; 96; 96]) 1 96 96);
    [reflexivity | lia | lia |].
  intros _ _. vm_compute. discriminate.
Defined.

(** C8 as stated fails for an even kernel size: with [kernel_size=2] the
    padding [kernel_size // 2 = 1] makes each convolution of the main
    branch grow the map by one, so on a 4x4 input the main branch
    returns 6x6 while the shortcut projection returns 4x4. *)
Lemma C8_counterexample :
  ¬ (∀ (rt : Runtime) (i o k s : Z) (bn : bool) (x y : Tensor),
       ¬ (i = o ∧ s = 1) →
       Sequential_forward rt
         (BasicBlock.shortcut (BasicBlock.__init__ i o k s bn)) x = Some y →
       shape <$> BasicBlock.main_branch rt (BasicBlock.__init__ i o k s bn) x
       = Some (shape y)).
Proof.
  intros Hclaim.
  pose (x := zeros [1; 3; 4; 4]).
  pose (y := mkTensor [1; 16; 4; 4] (replicate 256 0%Qc)).
  specialize (Hclaim (zero_runtime true) 3 16 2 1 true x y ltac:(lia)).
  assert (shape <$> BasicBlock.main_branch (zero_runtime true)
                      (BasicBlock.__init__ 3 16 2 1 true) x
          = Some [1; 16; 6; 6]) as Hmain by (vm_compute; reflexivity).
  rewrite Hmain in Hclaim.
  assert (Sequential_forward (zero_runtime true)
            (BasicBlock.shortcut (BasicBlock.__init__ 3 16 2 1 true)) x
          = Some y) as Hshort by (vm_compute; reflexivity).
  specialize (Hclaim Hshort). discriminate Hclaim.
Qed.




(** C10. The stem convolution is built with [out_channels] equal to
    [in_channels]: whenever the stem returns, its input is a batch or,
    without batch normalisation, a single image with [in_channels]
    channels, and the result still has [in_channels] channels; and for
    a positive [in_channels] the stem does return on a batch with that
    many channels unless its batch normalisation in training mode is
    left with a single value per channel.  The first
    block of [layer1] is the one whose convolution goes from
    [in_channels] to [block_channels[0]]. *)
Theorem C10_stem_keeps_channels (rt : Runtime) (i nc : Z) (bc nb st : list Z)
    (bn : bool) (self : ClassifyingResNet.t) :
  ClassifyingResNet.__init__ i nc bc nb st bn = Some self →
  (∃ c rest,
     ClassifyingResNet.conv_block self = LConv2d c :: rest
     ∧ in_channels c = i ∧ out_channels c = i)
  ∧ (∀ x y, ClassifyingResNet.stem rt self x = Some y →
       ∃ (N : option Z) H W H' W',
         shape x = image_shape N i H W ∧ shape y = image_shape N i H' W'
         ∧ (bn = true → is_Some N))
  ∧ (∀ x N H W, 1 ≤ i → shape x = [N; i; H; W] → 1 ≤ H → 1 ≤ W →
       norm_ok rt bn N (strided H 2) (strided W 2) →
       ∃ y, ClassifyingResNet.stem rt self x = Some y
            ∧ shape y = [N; i; strided (strided H 2) 2; strided (strided W 2) 2])
  ∧ (∃ c0 b blocks c rest,
       py_index bc 0 = Some c0
       ∧ ClassifyingResNet.layer1 self = b :: blocks
       ∧ BasicBlock.conv1 b = LConv2d c :: rest
       ∧ in_channels c = i ∧ out_channels c = c0).
Proof.
  intros Hinit. unfold ClassifyingResNet.__init__ in Hinit.
  simplify_option_eq. split; [|split; [|split]].
  - destruct bn; eexists _, _; cbn; eauto.
  - intros x y Hy. apply (stem_inv rt _ i bn) in Hy; [|by destruct bn].
    destruct Hy as (N & h & w & h' & w' & Hx & _ & _ & Hsy & HN).
    by exists N, h, w, h', w'.
  - intros x N h w Hi Hx Hh Hw Hok.
    apply (stem_shape rt _ i bn x N h w); auto. by destruct bn.
  - eexists _, _, _, _, _. split; [done|].
    rewrite make_layer_blocks. split; [done|].
    unfold ClassifyingResNet.new_block. rewrite BasicBlock_conv1.
    unfold conv_bn. eauto.
Qed.

Lemma C10_stem_keeps_channels_witness :
  ∃ y, ClassifyingResNet.stem (zero_runtime true)
         (ClassifyingResNet.mk true
            (conv_bn (mkConv2d 3 3 7 2 3 false) true) (mkMaxPool2d 3 2 1)
            (ClassifyingResNet._make_layer true 3 16 2 2)
            (ClassifyingResNet._make_layer true 16 32 2 1)
            (ClassifyingResNet._make_layer true 32 64 2 1)
            (ClassifyingResNet._make_layer true 64 128 2 1)
            (1, 1) (mkLinear 128 10))
         (zeros [2; 3; 96; 96]) = Some y
       ∧ shape y = [2; 3; strided (strided 96 2) 2; strided (strided 96 2) 2].
Proof.
  destruct (C10_stem_keeps_channels (zero_runtime true) 3 10 [16; 32; 64; 128]
              [2; 2; 2; 2] [2; 1; 1; 1] true _ eq_refl) as (_ & _ & Hstem & _).
  apply (Hstem (zeros [2; 3; 96; 96]) 2 96 96);
    [lia | reflexivity | lia | lia |].
  intros _ _. vm_compute. discriminate.
Defined.

(** ** What a returned result says about the input *)

Section Inversion.

Context (rt : Runtime).

Implicit Types (i o k s H W : Z) (N : option Z) (bn : bool) (x y z : Tensor).

Lemma image_shape_inj N N' C C' H H' W W' :
  image_shape N C H W = image_shape N' C' H' W' →
  N = N' ∧ C = C' ∧ H = H' ∧ W = W'.
Proof. destruct N, N'; cbn; intros ?; by simplify_eq. Qed.

Lemma out_size_3_1_inv n s r :
  out_size n 3 s 1 = Some r → 1 ≤ s ∧ 1 ≤ n ∧ r = strided n s.
Proof.
  intros (_ & Hs & _ & Hn & ->)%out_size_inv. unfold strided.
  repeat split; [lia..|]. do 2 f_equal. lia.
Qed.

Lemma iadd_inv a b y :
  iadd a b = Some y →
  shape y = shape a ∧ broadcastable (shape a) (shape b) = true.
Proof.
  unfold iadd. destruct (broadcastable _ _); [|done]. by intros [= <-].
Qed.

Lemma main_branch_inv i o k s bn x z :
  BasicBlock.main_branch rt (BasicBlock.__init__ i o k s bn) x = Some z →
  ∃ N H W H1 W1 H2 W2,
    shape x = image_shape N i H W
    ∧ 1 ≤ o
    ∧ out_size H k s (k `div` 2) = Some H1
    ∧ out_size W k s (k `div` 2) = Some W1
    ∧ out_size H1 k 1 (k `div` 2) = Some H2
    ∧ out_size W1 k 1 (k `div` 2) = Some W2
    ∧ norm_ok_image rt bn N H1 W1
    ∧ shape z = image_shape N o H2 W2.
Proof.
  unfold BasicBlock.main_branch. rewrite BasicBlock_conv1, BasicBlock_conv2.
  intros Hz.
  destruct (Sequential_forward rt (conv_bn _ bn) x) as [a|] eqn:Ha; [|done].
  cbn [mbind option_bind] in Hz.
  apply conv_bn_inv in Ha
    as (N & H & W & H1 & W1 & Hx & Ho & HH & HW & Hsa & Hok).
  apply (conv_bn_inv rt _ false) in Hz
    as (N' & H1' & W1' & H2 & W2 & Hsr & _ & HH2 & HW2 & Hsz & _).
  cbn [in_channels out_channels kernel_size stride padding shape relu] in *.
  rewrite Hsa in Hsr. apply image_shape_inj in Hsr as (<- & _ & <- & <-).
  by exists N, H, W, H1, W1, H2, W2.
Qed.

Lemma shortcut_inv i o k s bn x y :
  Sequential_forward rt (BasicBlock.shortcut (BasicBlock.__init__ i o k s bn)) x
  = Some y →
  (i = o ∧ s = 1 ∧ y = x)
  ∨ (¬ (i = o ∧ s = 1)
     ∧ ∃ N H W, shape x = image_shape N i H W
                ∧ 1 ≤ o ∧ 1 ≤ s ∧ 1 ≤ H ∧ 1 ≤ W
                ∧ shape y = image_shape N o (strided H s) (strided W s)).
Proof.
  destruct (decide (i = o ∧ s = 1)) as [[-> ->]|Hne].
  - rewrite BasicBlock_shortcut_identity by done. cbn. intros [= <-]. by left.
  - rewrite BasicBlock_shortcut_projection by done.
    intros (N & H & W & H' & W' & Hx & Ho & HH & HW & Hy & _)%conv_bn_inv.
    cbn [in_channels out_channels kernel_size stride padding] in *.
    apply out_size_pointwise_inv in HH as (Hs & HH & ->).
    apply out_size_pointwise_inv in HW as (_ & HW & ->).
    right. split; [done|]. by exists N, H, W.
Qed.

(** A block of the network (kernel size 3): what its result says. *)
Lemma BasicBlock_forward_inv i o s bn x y :
  BasicBlock.forward rt (BasicBlock.__init__ i o 3 s bn) x = Some y →
  ∃ N H W,
    shape x = image_shape N i H W ∧ 1 ≤ o ∧ 1 ≤ s ∧ 1 ≤ H ∧ 1 ≤ W
    ∧ norm_ok_image rt bn N (strided H s) (strided W s)
    ∧ shape y = image_shape N o (strided H s) (strided W s).
Proof.
  unfold BasicBlock.forward. intros Hy.
  destruct (Sequential_forward rt _ x) as [identity|]; [|done].
  cbn [mbind option_bind] in Hy.
  destruct (BasicBlock.main_branch rt _ x) as [out|] eqn:Hout; [|done].
  cbn [mbind option_bind] in Hy.
  destruct (iadd out identity) as [r|] eqn:Hr; [|done].
  cbn [mbind option_bind] in Hy. injection Hy as <-.
  apply iadd_inv in Hr as [Hsr _].
  apply main_branch_inv in Hout
    as (N & H & W & H1 & W1 & H2 & W2 & Hx & Ho & HH1 & HW1 & HH2 & HW2
        & Hok & Hso).
  change (3 `div` 2) with 1 in *.
  apply out_size_3_1_inv in HH1 as (Hs & HH & ->).
  apply out_size_3_1_inv in HW1 as (_ & HW & ->).
  apply out_size_3_1_inv in HH2 as (_ & _ & ->).
  apply out_size_3_1_inv in HW2 as (_ & _ & ->).
  rewrite !strided_1 in Hso.
  exists N, H, W. repeat split; try done. cbn. congruence.
Qed.

Lemma layer_forward_replicate_inv o s bn (n : nat) x y :
  ClassifyingResNet.layer_forward rt
    (replicate n (ClassifyingResNet.new_block bn o o s)) x = Some y →
  ∀ N H W, shape x = image_shape N o H W → 1 ≤ H → 1 ≤ W →
    ∃ H' W', shape y = image_shape N o H' W' ∧ 1 ≤ H' ∧ 1 ≤ W'.
Proof.
  unfold ClassifyingResNet.new_block.
  revert x. induction n as [|n IH]; intros x Hy N H W Hx HH HW.
  - cbn in Hy. injection Hy as <-. by exists H, W.
  - cbn [replicate ClassifyingResNet.layer_forward] in Hy.
    destruct (BasicBlock.forward rt _ x) as [a|] eqn:Ha; [|done].
    cbn [mbind option_bind] in Hy.
    apply BasicBlock_forward_inv in Ha
      as (N' & H0 & W0 & Hx' & _ & Hs & ? & ? & _ & Hsa).
    rewrite Hx in Hx'. apply image_shape_inj in Hx' as (<- & _ & <- & <-).
    apply (IH a Hy N _ _ Hsa); by apply strided_pos.
Qed.

Lemma layer_forward_inv bn i o n s x y :
  ClassifyingResNet.layer_forward rt
    (ClassifyingResNet._make_layer bn i o n s) x = Some y →
  ∃ N H W H' W',
    shape x = image_shape N i H W ∧ 1 ≤ H ∧ 1 ≤ W ∧ 1 ≤ o
    ∧ (bn = true → is_Some N)
    ∧ shape y = image_shape N o H' W' ∧ 1 ≤ H' ∧ 1 ≤ W'.
Proof.
  rewrite make_layer_blocks. cbn [ClassifyingResNet.layer_forward].
  unfold ClassifyingResNet.new_block at 1. intros Hy.
  destruct (BasicBlock.forward rt _ x) as [a|] eqn:Ha; [|done].
  cbn [mbind option_bind] in Hy.
  apply BasicBlock_forward_inv in Ha
    as (N & H & W & Hx & Ho & Hs & ? & ? & Hok & Hsa).
  destruct (layer_forward_replicate_inv o s bn _ a y Hy N _ _ Hsa)
    as (H' & W' & Hsy & ? & ?); [by apply strided_pos..|].
  exists N, H, W, H', W'. repeat split; try done.
  intros Hbn. destruct (Hok Hbn) as (m & -> & _). eauto.
Qed.

End Inversion.

(** ** Further properties of the residual block *)

Section BlockProperties.

Context (rt : Runtime).

Lemma relu1_nonneg v : (0 ≤ relu1 v)%Qc.
Proof.
  unfold relu1. case_decide; [by apply Qclt_le_weak|apply Qcle_refl].
Qed.

Lemma relu_nonneg x : Forall (λ v, (0 ≤ v)%Qc) (data (relu x)).
Proof. cbn. apply Forall_fmap, list.Forall_forall. intros v _. apply relu1_nonneg. Qed.

Lemma out_size_even n k s r :
  k `mod` 2 = 0 → out_size n k s (k `div` 2) = Some r → r = n `div` s + 1.
Proof.
  intros Heven (Hk & Hs & _ & _ & ->)%out_size_inv.
  pose proof (Z.div_mod k 2 ltac:(lia)) as Hdm.
  do 2 f_equal. lia.
Qed.

Lemma broadcastable4 N o A B N' o' a b :
  broadcastable [N; o; A; B] [N'; o'; a; b] = true →
  (a = A ∨ a = 1) ∧ (b = B ∨ b = 1).
Proof.
  unfold broadcastable. cbn. rewrite !andb_true_iff, !bool_decide_eq_true.
  intros (Hb & Ha & _). by split.
Qed.

End BlockProperties.

(** ** Further properties of the classifier *)

Section ClassifierProperties.

Context (rt : Runtime).

Lemma py_index_Some_lt (l : list Z) (j v : Z) :
  0 ≤ j → py_index l j = Some v → (Z.to_nat j < length l)%nat.
Proof.
  intros Hj. unfold py_index. rewrite decide_True by done.
  intros Hv. by apply lookup_lt_Some in Hv.
Qed.

Lemma py_index_is_Some (l : list Z) (j : Z) :
  - Z.of_nat (length l) ≤ j < Z.of_nat (length l) → is_Some (py_index l j).
Proof.
  intros Hj. unfold py_index. case_decide.
  - apply lookup_lt_is_Some. lia.
  - rewrite decide_True by lia. apply lookup_lt_is_Some. lia.
Qed.

(** What a constructed network is made of. *)
Lemma ResNet_init_inv i nc bc nb st bn self :
  ClassifyingResNet.__init__ i nc bc nb st bn = Some self →
  ∃ c0 c1 c2 c3 cl n0 n1 n2 n3 s0 s1 s2 s3,
    py_index bc 3 = Some c3 ∧ py_index bc (-1) = Some cl
    ∧ py_index nb 3 = Some n3
    ∧ py_index st 0 = Some s0 ∧ py_index st 1 = Some s1
    ∧ py_index st 2 = Some s2 ∧ py_index st 3 = Some s3
    ∧ Forall (λ size, 0 ≤ size) [i; c0; c1; c2; c3; cl; nc]
    ∧ self = ClassifyingResNet.mk bn
               (conv_bn (mkConv2d i i 7 2 3 (negb bn)) bn)
               (mkMaxPool2d 3 2 1)
               (ClassifyingResNet._make_layer bn i c0 n0 s0)
               (ClassifyingResNet._make_layer bn c0 c1 n1 s1)
               (ClassifyingResNet._make_layer bn c1 c2 n2 s2)
               (ClassifyingResNet._make_layer bn c2 c3 n3 s3)
               (1, 1) (mkLinear cl nc).
Proof.
  intros Hinit. unfold ClassifyingResNet.__init__ in Hinit.
  simplify_option_eq. eexists _, _, _, _, _, _, _, _, _, _, _, _, _.
  repeat split; try done. by destruct bn.
Qed.

(** Whatever [forward] returns, on a network built from [c3] as last
    stage width and [cl] as input width of the head: the input is a
    batch and the result has a row of logits per image, or the input is
    a single image, which only a network without batch normalisation
    takes; the head then sees the [c3] channel means as [c3] rows of
    one feature. *)
Lemma ResNet_forward_inv i nc c0 c1 c2 c3 cl n0 n1 n2 n3 s0 s1 s2 s3 bn x y :
  ClassifyingResNet.forward rt
    (ClassifyingResNet.mk bn
       (conv_bn (mkConv2d i i 7 2 3 (negb bn)) bn)
       (mkMaxPool2d 3 2 1)
       (ClassifyingResNet._make_layer bn i c0 n0 s0)
       (ClassifyingResNet._make_layer bn c0 c1 n1 s1)
       (ClassifyingResNet._make_layer bn c1 c2 n2 s2)
       (ClassifyingResNet._make_layer bn c2 c3 n3 s3)
       (1, 1) (mkLinear cl nc)) x = Some y →
  ∃ H W,
    1 ≤ H ∧ 1 ≤ W
    ∧ ((∃ N, shape x = [N; i; H; W] ∧ c3 = cl ∧ shape y = [N; nc])
       ∨ (bn = false ∧ shape x = [i; H; W] ∧ cl = 1 ∧ shape y = [c3; nc])).
Proof.
  unfold ClassifyingResNet.forward.
  cbn [ClassifyingResNet.layer1 ClassifyingResNet.layer2
       ClassifyingResNet.layer3 ClassifyingResNet.layer4
       ClassifyingResNet.global_pool ClassifyingResNet.fc].
  intros Hy.
  destruct (ClassifyingResNet.stem rt _ x) as [x0|] eqn:E0; [|done].
  cbn [mbind option_bind] in Hy.
  destruct (ClassifyingResNet.layer_forward rt _ x0) as [x1|] eqn:E1; [|done].
  cbn [mbind option_bind] in Hy.
  destruct (ClassifyingResNet.layer_forward rt _ x1) as [x2|] eqn:E2; [|done].
  cbn [mbind option_bind] in Hy.
  destruct (ClassifyingResNet.layer_forward rt _ x2) as [x3|] eqn:E3; [|done].
  cbn [mbind option_bind] in Hy.
  destruct (ClassifyingResNet.layer_forward rt _ x3) as [x4|] eqn:E4; [|done].
  cbn [mbind option_bind] in Hy.
  destruct (adaptive_avg_pool2d rt (1, 1) x4) as [x5|] eqn:E5; [|done].
  cbn [mbind option_bind] in Hy.
  destruct (flatten1 x5) as [x6|] eqn:E6; [|done].
  cbn [mbind option_bind] in Hy.
  (* the stem *)
  apply (stem_inv rt _ i bn) in E0; [|reflexivity].
  destruct E0 as (N & H & W & H0 & W0 & Hx & HH & HW & Hs0 & HN).
  (* the four stages *)
  apply layer_forward_inv in E1
    as (N1 & H1 & W1 & H1' & W1' & Hs0' & _ & _ & _ & _ & Hs1 & _ & _).
  rewrite Hs0 in Hs0'. apply image_shape_inj in Hs0' as (<- & _ & _ & _).
  apply layer_forward_inv in E2
    as (N2 & H2 & W2 & H2' & W2' & Hs1' & _ & _ & _ & _ & Hs2 & _ & _).
  rewrite Hs1 in Hs1'. apply image_shape_inj in Hs1' as (<- & _ & _ & _).
  apply layer_forward_inv in E3
    as (N3 & H3 & W3 & H3' & W3' & Hs2' & _ & _ & _ & _ & Hs3 & _ & _).
  rewrite Hs2 in Hs2'. apply image_shape_inj in Hs2' as (<- & _ & _ & _).
  apply layer_forward_inv in E4
    as (N4 & H4 & W4 & H4' & W4' & Hs3' & _ & _ & _ & HN4 & Hs4 & _ & _).
  rewrite Hs3 in Hs3'. apply image_shape_inj in Hs3' as (<- & _ & _ & _).
  (* the head *)
  unfold adaptive_avg_pool2d in E5. rewrite Hs4, image_dims_shape in E5.
  case_decide; [|done]. injection E5 as <-.
  exists H, W. split; [done|]. split; [done|].
  destruct N as [n|]; cbn [image_shape] in *.
  - unfold flatten1 in E6. cbn in E6. injection E6 as <-.
    unfold linear in Hy. cbn in Hy. case_decide as Hc; [|done].
    injection Hy as <-. cbn [in_features] in Hc.
    left. exists n. repeat split; try done; lia.
  - unfold flatten1 in E6. cbn in E6. injection E6 as <-.
    unfold linear in Hy. cbn in Hy. case_decide as Hc; [|done].
    injection Hy as <-. cbn [in_features] in Hc.
    right. split; [|split; [done|split; [lia|done]]].
    destruct bn; [|done]. by destruct (HN eq_refl).
Qed.

End ClassifierProperties.

(** ** Further properties of the class-guided wrapper *)

Section WrapperProperties.

Context (rt : Runtime).

Lemma linear_inv l x y :
  linear rt l x = Some y → list.last (shape x) = Some (in_features l).
Proof.
  unfold linear. rewrite <- head_reverse.
  destruct (reverse (shape x)) as [|d lead]; [done|].
  case_decide; [|done]. intros _. cbn. by f_equal.
Qed.

End WrapperProperties.

(** ** Exact extents of what is returned *)

Section ExactInversion.

Context (rt : Runtime).

Implicit Types (i o k s H W : Z) (N : option Z) (bn : bool) (x y z : Tensor).

Lemma max_pool2d_inv_exact m x y N C H W :
  max_pool2d m x = Some y →
  shape x = image_shape N C H W →
  ∃ H' W',
    out_size H (pool_kernel_size m) (pool_stride m) (pool_padding m) = Some H'
    ∧ out_size W (pool_kernel_size m) (pool_stride m) (pool_padding m) = Some W'
    ∧ shape y = image_shape N C H' W'.
Proof.
  unfold max_pool2d. intros Hy Hx. rewrite Hx, image_dims_shape in Hy.
  case_decide; [|done].
  destruct (out_size H _ _ _) as [H'|]; [|done].
  destruct (out_size W _ _ _) as [W'|]; [|done].
  cbn in Hy. destruct (mapM _ _) as [d|]; [|done].
  cbn in Hy. injection Hy as <-. by exists H', W'.
Qed.

Lemma stem_inv_exact (self : ClassifyingResNet.t) i bn x y N H W :
  ClassifyingResNet.conv_block self = conv_bn (mkConv2d i i 7 2 3 (negb bn)) bn →
  ClassifyingResNet.max_pool self = mkMaxPool2d 3 2 1 →
  ClassifyingResNet.stem rt self x = Some y →
  shape x = image_shape N i H W →
  shape y = image_shape N i (strided (strided H 2) 2) (strided (strided W 2) 2).
Proof.
  intros Hcb Hmp. unfold ClassifyingResNet.stem. rewrite Hcb, Hmp. intros Hy Hx.
  destruct (Sequential_forward rt _ x) as [a|] eqn:Ha; [|done]. cbn in Hy.
  destruct (max_pool2d _ a) as [b|] eqn:Hb; [|done]. cbn in Hy.
  injection Hy as <-.
  apply conv_bn_inv in Ha
    as (N' & H0 & W0 & H1 & W1 & Hx' & _ & HH1 & HW1 & Hsa & _).
  cbn [in_channels out_channels kernel_size stride padding] in *.
  rewrite Hx in Hx'. apply image_shape_inj in Hx' as (Hn & _ & Hh & Hw).
  subst N' H0 W0.
  pose proof (out_size_inv _ _ _ _ _ HH1) as (_ & _ & _ & HH & _).
  pose proof (out_size_inv _ _ _ _ _ HW1) as (_ & _ & _ & HW & _).
  rewrite (out_size_half_pad H 7 2 3) in HH1 by lia.
  rewrite (out_size_half_pad W 7 2 3) in HW1 by lia.
  injection HH1 as <-. injection HW1 as <-.
  destruct (max_pool2d_inv_exact _ _ _ N i _ _ Hb Hsa)
    as (H' & W' & HH' & HW' & Hsb).
  cbn [pool_kernel_size pool_stride pool_padding] in *.
  apply out_size_3_1_inv in HH' as (_ & _ & ->).
  apply out_size_3_1_inv in HW' as (_ & _ & ->).
  exact Hsb.
Qed.

Lemma layer_forward_replicate_inv_exact o s bn (k : nat) x y N H W :
  ClassifyingResNet.layer_forward rt
    (replicate k (ClassifyingResNet.new_block bn o o s)) x = Some y →
  shape x = image_shape N o H W →
  norm_ok_image rt bn N H W →
  shape y = image_shape N o (Nat.iter k (λ h, strided h s) H)
                            (Nat.iter k (λ w, strided w s) W)
  ∧ norm_ok_image rt bn N (Nat.iter k (λ h, strided h s) H)
                          (Nat.iter k (λ w, strided w s) W).
Proof.
  unfold ClassifyingResNet.new_block.
  revert x H W. induction k as [|k IH]; intros x H W Hy Hx Hok.
  - cbn in Hy. injection Hy as <-. done.
  - cbn [replicate ClassifyingResNet.layer_forward] in Hy.
    destruct (BasicBlock.forward rt _ x) as [a|] eqn:Ha; [|done].
    cbn [mbind option_bind] in Hy.
    apply BasicBlock_forward_inv in Ha
      as (N' & H0 & W0 & Hx' & _ & Hs & ? & ? & Hoka & Hsa).
    rewrite Hx in Hx'. apply image_shape_inj in Hx' as (Hn & _ & Hh & Hw).
    subst N' H0 W0.
    rewrite !Nat.iter_succ_r. by apply (IH a).
Qed.

Lemma layer_forward_inv_exact bn i o n s x y N H W :
  ClassifyingResNet.layer_forward rt
    (ClassifyingResNet._make_layer bn i o n s) x = Some y →
  shape x = image_shape N i H W →
  shape y = image_shape N o (stage_extent n s H) (stage_extent n s W)
  ∧ norm_ok_image rt bn N (stage_extent n s H) (stage_extent n s W).
Proof.
  rewrite make_layer_blocks. cbn [ClassifyingResNet.layer_forward].
  unfold ClassifyingResNet.new_block at 1. intros Hy Hx.
  destruct (BasicBlock.forward rt _ x) as [a|] eqn:Ha; [|done].
  cbn [mbind option_bind] in Hy.
  apply BasicBlock_forward_inv in Ha
    as (N' & H0 & W0 & Hx' & _ & Hs & ? & ? & Hoka & Hsa).
  rewrite Hx in Hx'. apply image_shape_inj in Hx' as (Hn & _ & Hh & Hw).
  subst N' H0 W0.
  unfold stage_extent.
  replace (Z.to_nat (Z.max 1 n)) with (S (Z.to_nat (n - 1))) by lia.
  rewrite !Nat.iter_succ_r.
  by apply (layer_forward_replicate_inv_exact o s bn _ a y).
Qed.

(** The last batch normalisation of a network that returns was given
    more than one value per channel. *)
Lemma ResNet_forward_norm_ok i nc c0 c1 c2 c3 cl n0 n1 n2 n3 s0 s1 s2 s3 bn
    x y N H W :
  ClassifyingResNet.forward rt
    (ClassifyingResNet.mk bn
       (conv_bn (mkConv2d i i 7 2 3 (negb bn)) bn)
       (mkMaxPool2d 3 2 1)
       (ClassifyingResNet._make_layer bn i c0 n0 s0)
       (ClassifyingResNet._make_layer bn c0 c1 n1 s1)
       (ClassifyingResNet._make_layer bn c1 c2 n2 s2)
       (ClassifyingResNet._make_layer bn c2 c3 n3 s3)
       (1, 1) (mkLinear cl nc)) x = Some y →
  shape x = image_shape N i H W →
  norm_ok_image rt bn N
    (final_extent [n0; n1; n2; n3] [s0; s1; s2; s3] H)
    (final_extent [n0; n1; n2; n3] [s0; s1; s2; s3] W).
Proof.
  unfold ClassifyingResNet.forward.
  cbn [ClassifyingResNet.layer1 ClassifyingResNet.layer2
       ClassifyingResNet.layer3 ClassifyingResNet.layer4
       ClassifyingResNet.global_pool ClassifyingResNet.fc].
  intros Hy Hx.
  destruct (ClassifyingResNet.stem rt _ x) as [x0|] eqn:E0; [|done].
  cbn [mbind option_bind] in Hy.
  destruct (ClassifyingResNet.layer_forward rt _ x0) as [x1|] eqn:E1; [|done].
  cbn [mbind option_bind] in Hy.
  destruct (ClassifyingResNet.layer_forward rt _ x1) as [x2|] eqn:E2; [|done].
  cbn [mbind option_bind] in Hy.
  destruct (ClassifyingResNet.layer_forward rt _ x2) as [x3|] eqn:E3; [|done].
  cbn [mbind option_bind] in Hy.
  destruct (ClassifyingResNet.layer_forward rt _ x3) as [x4|] eqn:E4; [|done].
  assert (shape x0 = image_shape N i (strided (strided H 2) 2)
                                     (strided (strided W 2) 2)) as F0
    by (refine (stem_inv_exact _ i bn x x0 N H W _ _ E0 Hx); reflexivity).
  destruct (layer_forward_inv_exact _ _ _ _ _ _ _ N _ _ E1 F0) as [F1 _].
  destruct (layer_forward_inv_exact _ _ _ _ _ _ _ N _ _ E2 F1) as [F2 _].
  destruct (layer_forward_inv_exact _ _ _ _ _ _ _ N _ _ E3 F2) as [F3 _].
  destruct (layer_forward_inv_exact _ _ _ _ _ _ _ N _ _ E4 F3) as [_ F4].
  exact F4.
Qed.

End ExactInversion.

Section InitLists.

(** A constructed network, in terms of the first four entries of the
    three lists. *)
Lemma ResNet_init_lists i nc bc nb st bn self :
  ClassifyingResNet.__init__ i nc bc nb st bn = Some self →
  ∃ c0 c1 c2 c3 cl n0 n1 n2 n3 s0 s1 s2 s3,
    take 4 bc = [c0; c1; c2; c3] ∧ take 4 nb = [n0; n1; n2; n3]
    ∧ take 4 st = [s0; s1; s2; s3]
    ∧ self = ClassifyingResNet.mk bn
               (conv_bn (mkConv2d i i 7 2 3 (negb bn)) bn)
               (mkMaxPool2d 3 2 1)
               (ClassifyingResNet._make_layer bn i c0 n0 s0)
               (ClassifyingResNet._make_layer bn c0 c1 n1 s1)
               (ClassifyingResNet._make_layer bn c1 c2 n2 s2)
               (ClassifyingResNet._make_layer bn c2 c3 n3 s3)
               (1, 1) (mkLinear cl nc).
Proof.
  intros Hinit. pose proof Hinit as Hinv.
  apply ResNet_init_inv in Hinv
    as (? & ? & ? & c3 & ? & ? & ? & ? & n3 & ? & ? & ? & s3
        & Hc3 & _ & Hn3 & _ & _ & _ & Hs3 & _ & _).
  pose proof (py_index_Some_lt bc 3 c3 ltac:(lia) Hc3) as Lbc.
  pose proof (py_index_Some_lt nb 3 n3 ltac:(lia) Hn3) as Lnb.
  pose proof (py_index_Some_lt st 3 s3 ltac:(lia) Hs3) as Lst.
  clear Hc3 Hn3 Hs3.
  destruct bc as [|c0' [|c1' [|c2' [|c3' bcr]]]]; cbn [length] in Lbc; try lia.
  destruct nb as [|n0' [|n1' [|n2' [|n3' nbr]]]]; cbn [length] in Lnb; try lia.
  destruct st as [|s0' [|s1' [|s2' [|s3' str]]]]; cbn [length] in Lst; try lia.
  unfold ClassifyingResNet.__init__ in Hinit.
  repeat match type of Hinit with
  | context [py_index ?l ?j] =>
      lazymatch j with
      | -1 => fail
      | _ => let r := eval vm_compute in (py_index l j) in
             change (py_index l j) with r in Hinit;
             cbn [mbind option_bind] in Hinit
      end
  end.
  destruct (py_index _ (-1)) as [cl|]; [|done].
  cbn [mbind option_bind] in Hinit. case_decide; [|done].
  injection Hinit as <-.
  exists c0', c1', c2', c3', cl, n0', n1', n2', n3', s0', s1', s2', s3'.
  repeat split; try done. by destruct bn.
Qed.

End InitLists.

(** ** Further properties *)

(** X1. A [BasicBlock] with positive channel counts, an odd kernel
    size and a positive stride
    maps an input of shape (N, in_channels, H, W), H, W >= 1, to shape
    (N, out_channels, (H-1)//stride + 1, (W-1)//stride + 1), unless its
    batch normalisation in training mode is left with a single value
    per channel; with [in_channels = out_channels] and [stride = 1] the
    output has the shape of the input. *)
Theorem X1_block_output_shape (rt : Runtime) (i o k s : Z) (bn : bool)
    (x : Tensor) (N H W : Z) :
  1 ≤ i → 1 ≤ o → 1 ≤ k → k `mod` 2 = 1 → 1 ≤ s →
  shape x = [N; i; H; W] → 1 ≤ H → 1 ≤ W →
  norm_ok rt bn N (strided H s) (strided W s) →
  ∃ y, BasicBlock.forward rt (BasicBlock.__init__ i o k s bn) x = Some y
       ∧ shape y = [N; o; strided H s; strided W s]
       ∧ (i = o → s = 1 → shape y = shape x).
Proof.
  intros Hi Ho Hk Hodd Hs Hx HH HW Hok.
  destruct (BasicBlock_forward_shape rt i o k s bn x N H W) as (y & Hy & Hsy);
    auto.
  exists y. repeat split; [done..|].
  intros -> ->. by rewrite Hsy, Hx, !strided_1.
Qed.

Lemma X1_block_output_shape_witness :
  ∃ y, BasicBlock.forward (zero_runtime true)
         (BasicBlock.__init__ 16 32 5 2 true) (zeros [1; 16; 7; 9]) = Some y
       ∧ shape y = [1; 32; strided 7 2; strided 9 2]
       ∧ (16 = 32 → 2 = 1 → shape y = shape (zeros [1; 16; 7; 9])).
Proof.
  apply (X1_block_output_shape (zero_runtime true) 16 32 5 2 true
           (zeros [1; 16; 7; 9]) 1 7 9);
    [lia | lia | lia | reflexivity | lia | reflexivity | lia | lia |].
  intros _ _. vm_compute. discriminate.
Defined.

(** X2. Whatever a [BasicBlock] returns has no negative entry, and
    neither has what the stem of the network returns: both end in a
    ReLU. *)
Theorem X2_outputs_nonnegative (rt : Runtime) (b : BasicBlock.t)
    (self : ClassifyingResNet.t) (x y : Tensor) :
  (BasicBlock.forward rt b x = Some y → Forall (λ v, (0 ≤ v)%Qc) (data y))
  ∧ (ClassifyingResNet.stem rt self x = Some y →
     Forall (λ v, (0 ≤ v)%Qc) (data y)).
Proof.
  split.
  - unfold BasicBlock.forward. intros Hy.
    destruct (Sequential_forward rt _ x) as [identity|]; [|done].
    cbn [mbind option_bind] in Hy.
    destruct (BasicBlock.main_branch rt b x) as [out|]; [|done].
    cbn [mbind option_bind] in Hy.
    destruct (iadd out identity) as [r|]; [|done].
    cbn [mbind option_bind] in Hy. injection Hy as <-. apply relu_nonneg.
  - unfold ClassifyingResNet.stem. intros Hy.
    destruct (Sequential_forward rt _ x) as [a|]; [|done].
    cbn [mbind option_bind] in Hy.
    destruct (max_pool2d _ a) as [r|]; [|done].
    cbn [mbind option_bind] in Hy. injection Hy as <-. apply relu_nonneg.
Qed.

Lemma X2_outputs_nonnegative_witness :
  Forall (λ v, (0 ≤ v)%Qc)
    (data (mkTensor [1; 2; 1; 1] (replicate 2 0%Qc))).
Proof.
  refine (proj1 (X2_outputs_nonnegative (zero_runtime false)
                   (BasicBlock.__init__ 1 2 3 1 false)
                   (ClassifyingResNet.mk false [] (mkMaxPool2d 3 2 1)
                      [] [] [] [] (1, 1) (mkLinear 1 1))
                   (mkTensor [1; 1; 1; 1] [Qc_of_Z (-5)])
                   (mkTensor [1; 2; 1; 1] (replicate 2 0%Qc))) _).
  vm_compute. reflexivity.
Defined.

(** X3. With an even kernel size the two paths of a [BasicBlock] never
    agree: the main branch grows the map, and as soon as the input is
    wider or taller than the stride the residual addition is rejected,
    so [forward] returns nothing. *)
Theorem X3_even_kernel_rejected (rt : Runtime) (i o k s : Z) (bn : bool)
    (x : Tensor) (N C H W : Z) :
  k `mod` 2 = 0 →
  shape x = [N; C; H; W] → s < H ∨ s < W →
  BasicBlock.forward rt (BasicBlock.__init__ i o k s bn) x = None.
Proof.
  intros Heven Hx Hbig. unfold BasicBlock.forward.
  destruct (Sequential_forward rt _ x) as [identity|] eqn:Hid; [|done].
  cbn [mbind option_bind].
  destruct (BasicBlock.main_branch rt _ x) as [out|] eqn:Hout; [|done].
  cbn [mbind option_bind].
  destruct (iadd out identity) as [r|] eqn:Hr; [exfalso|done].
  apply iadd_inv in Hr as [_ Hb].
  apply main_branch_inv in Hout
    as (N1 & H1 & W1 & Ha & Wa & H2 & W2 & Hx1 & _ & HHa & HWa & HH2 & HW2
        & _ & Hso).
  rewrite Hx in Hx1. apply (image_shape_inj (Some N)) in Hx1 as (<- & -> & -> & ->).
  cbn [image_shape] in Hso. rename N into N1.
  pose proof (out_size_inv _ _ _ _ _ HHa) as (_ & Hs & _).
  apply (out_size_even _ _ _ _ Heven) in HHa as ->, HWa as ->.
  apply (out_size_even _ _ _ _ Heven) in HH2 as ->, HW2 as ->.
  rewrite !Z.div_1_r in Hso.
  assert (shape identity = [N1; o; strided H1 s; strided W1 s]) as Hsi.
  { apply shortcut_inv in Hid
      as [(-> & -> & ->)|(_ & N' & H' & W' & Hx' & _ & _ & _ & _ & Hsi)].
    - rewrite !strided_1. exact Hx.
    - rewrite Hx in Hx'.
      apply (image_shape_inj (Some N1)) in Hx' as (<- & _ & <- & <-).
      exact Hsi. }
  rewrite Hso, Hsi in Hb. apply broadcastable4 in Hb as [HbH HbW].
  unfold strided in *.
  assert ((H1 - 1) `div` s ≤ H1 `div` s) by (apply Z.div_le_mono; lia).
  assert ((W1 - 1) `div` s ≤ W1 `div` s) by (apply Z.div_le_mono; lia).
  destruct Hbig as [Hbig|Hbig].
  - assert (1 ≤ (H1 - 1) `div` s) by (apply Z.div_le_lower_bound; lia). lia.
  - assert (1 ≤ (W1 - 1) `div` s) by (apply Z.div_le_lower_bound; lia). lia.
Qed.

Lemma X3_even_kernel_rejected_witness :
  BasicBlock.forward (zero_runtime true) (BasicBlock.__init__ 3 16 2 1 true)
    (zeros [1; 3; 4; 4]) = None.
Proof.
  apply (X3_even_kernel_rejected (zero_runtime true) 3 16 2 1 true
           (zeros [1; 3; 4; 4]) 1 3 4 4); [reflexivity | reflexivity | lia].
Defined.

(** X4. With positive channel counts, an even kernel size and an
    input no wider and no taller than the stride, the shortcut of a [BasicBlock] is a 1x1 map and
    the residual addition broadcasts it instead of raising: [forward]
    returns a map of extent [H // stride + 2] by [W // stride + 2],
    larger than what the shortcut computes. *)
Theorem X4_even_kernel_broadcasts (rt : Runtime) (i o k s : Z) (bn : bool)
    (x : Tensor) (N H W : Z) :
  1 ≤ i → 1 ≤ o → 2 ≤ k → k `mod` 2 = 0 →
  shape x = [N; i; H; W] → 1 ≤ H ≤ s → 1 ≤ W ≤ s →
  norm_safe rt bn N →
  ∃ y, BasicBlock.forward rt (BasicBlock.__init__ i o k s bn) x = Some y
       ∧ shape y = [N; o; H `div` s + 2; W `div` s + 2].
Proof.
  intros Hi Ho Hk Heven Hx HH HW Hsafe.
  assert (1 ≤ s) as Hs by lia.
  pose proof (Z.div_mod k 2 ltac:(lia)) as Hdm.
  assert (0 ≤ H `div` s ∧ 0 ≤ W `div` s) as [HdH HdW]
    by (split; apply Z.div_pos; lia).
  assert (strided H s = 1 ∧ strided W s = 1) as [HsH HsW].
  { unfold strided. rewrite !Z.div_small by lia. done. }
  unfold BasicBlock.forward.
  destruct (shortcut_shape rt i o k s bn x N H W) as (identity & -> & Hid);
    auto using norm_safe_ok, strided_pos with lia.
  rewrite HsH, HsW in Hid. cbn [mbind option_bind].
  unfold BasicBlock.main_branch. rewrite BasicBlock_conv1, BasicBlock_conv2.
  assert (∀ n, 0 ≤ n → out_size n k s (k `div` 2) = Some (n `div` s + 1)) as E1.
  { intros n Hn. rewrite out_size_Some by lia. do 3 f_equal. lia. }
  assert (∀ n, 0 ≤ n → out_size n k 1 (k `div` 2) = Some (n + 1)) as E2.
  { intros n Hn. rewrite out_size_Some, Z.div_1_r by lia. f_equal. lia. }
  assert (norm_ok rt bn N (H `div` s + 1) (W `div` s + 1)) as Hok
    by (apply norm_safe_ok; [done|lia..]).
  destruct (conv_bn_shape rt (mkConv2d i o k s (k `div` 2) (negb bn)) bn x
              N i H W _ _ Hx eq_refl Ho (E1 H ltac:(lia)) (E1 W ltac:(lia))
              Hok)
    as (a & -> & Ha).
  cbn [out_channels mbind option_bind] in *.
  destruct (conv_bn_shape rt (mkConv2d o o k 1 (k `div` 2) (negb bn)) false
              (relu a) N o _ _ _ _ Ha eq_refl Ho
              (E2 (H `div` s + 1) ltac:(lia)) (E2 (W `div` s + 1) ltac:(lia))
              ltac:(done))
    as (out & Hout & Hso).
  cbn [out_channels] in Hso.
  match goal with
  | |- context [Sequential_forward rt [LConv2d ?c] (relu a)] =>
      change (Sequential_forward rt [LConv2d c] (relu a))
        with (Sequential_forward rt (conv_bn c false) (relu a))
  end.
  rewrite Hout.
  cbn [mbind option_bind].
  unfold iadd, broadcastable. rewrite Hso, Hid. cbn.
  rewrite !bool_decide_eq_true_2 by (by right).
  rewrite !bool_decide_eq_true_2 by (by left). cbn.
  eexists. split; [done|]. cbn. do 3 f_equal; [|f_equal]; lia.
Qed.

Lemma X4_even_kernel_broadcasts_witness :
  ∃ y, BasicBlock.forward (zero_runtime false)
         (BasicBlock.__init__ 3 16 2 4 true) (zeros [1; 3; 4; 3]) = Some y
       ∧ shape y = [1; 16; 4 `div` 4 + 2; 3 `div` 4 + 2].
Proof.
  apply (X4_even_kernel_broadcasts (zero_runtime false) 3 16 2 4 true
           (zeros [1; 3; 4; 3]) 1 4 3);
    [lia | lia | lia | reflexivity | reflexivity | lia | lia
    | right; left; reflexivity].
Defined.

(** X5. A [BasicBlock] built with a stride that is not positive never
    runs: its shortcut is then a projection whose convolution the
    library rejects, on every input. *)
Theorem X5_nonpositive_stride_rejected (rt : Runtime) (i o k s : Z) (bn : bool)
    (x : Tensor) :
  s ≤ 0 →
  BasicBlock.forward rt (BasicBlock.__init__ i o k s bn) x = None.
Proof.
  intros Hs. unfold BasicBlock.forward.
  destruct (Sequential_forward rt _ x) as [identity|] eqn:Hid; [exfalso|done].
  apply shortcut_inv in Hid
    as [(_ & -> & _)|(_ & N & H & W & _ & _ & ? & _)]; lia.
Qed.

Lemma X5_nonpositive_stride_rejected_witness :
  BasicBlock.forward (zero_runtime false) (BasicBlock.__init__ 3 16 3 0 false)
    (zeros [1; 3; 8; 8]) = None.
Proof.
  apply (X5_nonpositive_stride_rejected (zero_runtime false) 3 16 3 0 false
           (zeros [1; 3; 8; 8])). lia.
Defined.

(** X6. [ClassifyingResNet.__init__] returns a network only when
    [block_channels], [num_blocks] and [strides] each have at least
    four entries and no size is negative: with a shorter list an index
    is out of range, with a negative channel count, stage width or
    number of classes a layer cannot allocate its weights, and the
    constructor raises.  It does return a network when the lists have
    at least four entries and the sizes are positive. *)
Theorem X6_init_needs_four_entries (i nc : Z) (bc nb st : list Z) (bn : bool) :
  (is_Some (ClassifyingResNet.__init__ i nc bc nb st bn) →
   (4 ≤ length bc)%nat ∧ (4 ≤ length nb)%nat ∧ (4 ≤ length st)%nat
   ∧ 0 ≤ i ∧ 0 ≤ nc ∧ Forall (λ c, 0 ≤ c) (take 4 bc)
   ∧ ∀ cl, py_index bc (-1) = Some cl → 0 ≤ cl)
  ∧ ((4 ≤ length bc)%nat ∧ (4 ≤ length nb)%nat ∧ (4 ≤ length st)%nat
     ∧ 1 ≤ i ∧ 1 ≤ nc ∧ Forall (λ c, 1 ≤ c) bc →
     is_Some (ClassifyingResNet.__init__ i nc bc nb st bn)).
Proof.
  split.
  - intros [self Hinit]. unfold ClassifyingResNet.__init__ in Hinit.
    destruct (py_index bc 0) as [c0|] eqn:Hc0; [|done].
    destruct (py_index nb 0) as [n0|] eqn:Hn0; [|done].
    destruct (py_index st 0) as [s0|] eqn:Hs0; [|done].
    destruct (py_index bc 1) as [c1|] eqn:Hc1; [|done].
    destruct (py_index nb 1) as [n1|] eqn:Hn1; [|done].
    destruct (py_index st 1) as [s1|] eqn:Hs1; [|done].
    destruct (py_index bc 2) as [c2|] eqn:Hc2; [|done].
    destruct (py_index nb 2) as [n2|] eqn:Hn2; [|done].
    destruct (py_index st 2) as [s2|] eqn:Hs2; [|done].
    destruct (py_index bc 3) as [c3|] eqn:Hc3; [|done].
    destruct (py_index nb 3) as [n3|] eqn:Hn3; [|done].
    destruct (py_index st 3) as [s3|] eqn:Hs3; [|done].
    destruct (py_index bc (-1)) as [cl|] eqn:Hcl; [|done].
    cbn [mbind option_bind] in Hinit. case_decide as Hsizes; [|done].
    rewrite !list.Forall_cons in Hsizes.
    destruct Hsizes as (? & ? & ? & ? & ? & ? & ? & _).
    pose proof (py_index_Some_lt bc 3 c3 ltac:(lia) Hc3).
    pose proof (py_index_Some_lt nb 3 n3 ltac:(lia) Hn3).
    pose proof (py_index_Some_lt st 3 s3 ltac:(lia) Hs3).
    repeat split; [lia..| |by intros ? [= <-]].
    destruct bc as [|b0 [|b1 [|b2 [|b3 bc]]]]; cbn [length] in *; try lia.
    unfold py_index in Hc0, Hc1, Hc2, Hc3.
    rewrite decide_True in Hc0 by lia. rewrite decide_True in Hc1 by lia.
    rewrite decide_True in Hc2 by lia. rewrite decide_True in Hc3 by lia.
    change (Z.to_nat 0) with 0%nat in Hc0. change (Z.to_nat 1) with 1%nat in Hc1.
    change (Z.to_nat 2) with 2%nat in Hc2. change (Z.to_nat 3) with 3%nat in Hc3.
    cbn in Hc0, Hc1, Hc2, Hc3. simplify_eq.
    cbn [take]. repeat (apply list.Forall_cons; split; [done|]).
    apply Forall_nil_2.
  - intros (Hbc & Hnb & Hst & Hi & Hnc & Hpos).
    unfold ClassifyingResNet.__init__.
    repeat match goal with
           | |- context [py_index ?l ?j] =>
               let v := fresh "v" in
               let E := fresh "E" in
               destruct (py_index l j) as [v|] eqn:E;
                 [|by destruct (py_index_is_Some l j) as [? ?]; [lia|congruence]];
               cbn [mbind option_bind]
           end.
    rewrite decide_True; [done|].
    assert (∀ j w, py_index bc j = Some w → 1 ≤ w) as Hv.
    { intros j w. unfold py_index.
      rewrite list.Forall_forall in Hpos.
      repeat case_decide; try done; intros ?%list_elem_of_lookup_2; auto. }
    repeat constructor; try lia;
      match goal with
      | E : py_index bc _ = Some ?v |- 0 ≤ ?v => specialize (Hv _ _ E); lia
      end.
Qed.

(** X7. The network takes images of every size: for a configuration
    with four positive stage widths, positive strides, a positive
    number of input channels and of classes, and any extent
    H, W >= 1, [forward] maps a (N, in_channels,
    H, W) input to shape (N, num_classes), given no batch
    normalisation, or evaluation mode, or at least two images. *)
Theorem X7_forward_any_resolution (rt : Runtime) (in_channels num_classes : Z)
    (block_channels num_blocks strides : list Z) (use_batchnorm : bool)
    (N H W : Z) (x : Tensor) :
  length block_channels = 4%nat →
  Forall (λ c, 1 ≤ c) block_channels →
  (4 ≤ length num_blocks)%nat →
  (4 ≤ length strides)%nat →
  Forall (λ s, 1 ≤ s) (take 4 strides) →
  1 ≤ in_channels → 1 ≤ num_classes →
  norm_safe rt use_batchnorm N →
  shape x = [N; in_channels; H; W] → 1 ≤ H → 1 ≤ W →
  ∃ self y,
    ClassifyingResNet.__init__ in_channels num_classes block_channels
      num_blocks strides use_batchnorm = Some self
    ∧ ClassifyingResNet.forward rt self x = Some y
    ∧ shape y = [N; num_classes].
Proof.
  intros Hbc Hcpos Hnb Hst Hpos Hi Hnc Hsafe Hx HH HW.
  destruct block_channels as [|c0 [|c1 [|c2 [|c3 [|]]]]]; try discriminate.
  destruct num_blocks as [|n0 [|n1 [|n2 [|n3 nr]]]]; cbn in Hnb; try lia.
  destruct strides as [|s0 [|s1 [|s2 [|s3 sr]]]]; cbn in Hst; try lia.
  cbn in Hpos.
  rewrite !list.Forall_cons in Hpos. destruct Hpos as (? & ? & ? & ? & _).
  rewrite !list.Forall_cons in Hcpos. destruct Hcpos as (? & ? & ? & ? & _).
  rewrite ResNet_init_eq by lia. eexists.
  destruct (ResNet_forward_exact rt in_channels num_classes c0 c1 c2 c3
              n0 n1 n2 n3 s0 s1 s2 s3 use_batchnorm x N H W)
    as (y & Hy & Hsy); auto.
  { apply norm_safe_ok; [done|by apply final_extent_pos..]. }
  exists y. eauto.
Qed.

Lemma X7_forward_any_resolution_witness :
  ∃ self y,
    ClassifyingResNet.__init__ 1 5 [8; 8; 16; 16] [1; 2; 1; 3] [1; 2; 2; 1]
      false = Some self
    ∧ ClassifyingResNet.forward (zero_runtime true) self (zeros [1; 1; 7; 5])
      = Some y
    ∧ shape y = [1; 5].
Proof.
  apply (X7_forward_any_resolution (zero_runtime true) 1 5 [8; 8; 16; 16]
           [1; 2; 1; 3] [1; 2; 2; 1] false 1 7 5 (zeros [1; 1; 7; 5])).
  - reflexivity.
  - repeat constructor; lia.
  - cbn; lia.
  - cbn; lia.
  - repeat constructor; lia.
  - lia.
  - lia.
  - by left.
  - reflexivity.
  - lia.
  - lia.
Defined.

(** X8. [forward] of a constructed network returns only on images with
    the network's number of input channels and an extent of at least
    1x1.  On a batch it returns a tensor of shape (N, num_classes) for
    the batch size N of the input.  A single image (in_channels, H, W)
    is taken only by a network without batch normalisation whose head
    reads one feature ([block_channels[-1] = 1]): the channel means are
    then flattened to [block_channels[3]] rows of one entry and the
    result has shape (block_channels[3], num_classes). *)
Theorem X8_forward_returns_only_logits (rt : Runtime) (i nc : Z)
    (bc nb st : list Z) (bn : bool) (self : ClassifyingResNet.t)
    (x y : Tensor) :
  ClassifyingResNet.__init__ i nc bc nb st bn = Some self →
  ClassifyingResNet.forward rt self x = Some y →
  ∃ H W,
    1 ≤ H ∧ 1 ≤ W
    ∧ ((∃ N, shape x = [N; i; H; W] ∧ shape y = [N; nc])
       ∨ (bn = false ∧ shape x = [i; H; W]
          ∧ py_index bc (-1) = Some 1
          ∧ ∃ c3, py_index bc 3 = Some c3 ∧ shape y = [c3; nc])).
Proof.
  intros Hinit Hy.
  apply ResNet_init_inv in Hinit
    as (c0 & c1 & c2 & c3 & cl & n0 & n1 & n2 & n3 & s0 & s1 & s2 & s3
        & Hc3 & Hcl & _ & _ & _ & _ & _ & _ & ->).
  apply ResNet_forward_inv in Hy
    as (H & W & HH & HW & [(N & Hx & _ & Hsy)|(Hbn & Hx & -> & Hsy)]).
  - exists H, W. split; [done|]. split; [done|]. left. by exists N.
  - exists H, W. split; [done|]. split; [done|]. right.
    split; [done|]. split; [done|]. split; [done|]. by exists c3.
Qed.

Lemma X8_forward_returns_only_logits_witness :
  ∃ H W,
    1 ≤ H ∧ 1 ≤ W
    ∧ ((∃ N, shape (zeros [3; 8; 8]) = [N; 3; H; W]
             ∧ shape (mkTensor [1; 5] (replicate 5 0%Qc)) = [N; 5])
       ∨ (false = false ∧ shape (zeros [3; 8; 8]) = [3; H; W]
          ∧ py_index [2; 2; 2; 1] (-1) = Some 1
          ∧ ∃ c3, py_index [2; 2; 2; 1] 3 = Some c3
                  ∧ shape (mkTensor [1; 5] (replicate 5 0%Qc)) = [c3; 5])).
Proof.
  refine (X8_forward_returns_only_logits (zero_runtime false) 3 5 [2; 2; 2; 1]
            [1; 1; 1; 1] [1; 1; 1; 1] false _ (zeros [3; 8; 8])
            (mkTensor [1; 5] (replicate 5 0%Qc)) eq_refl _).
  vm_compute. reflexivity.
Defined.

(** X9. The head reads its input width from [block_channels[-1]] while
    the last stage is built from [block_channels[3]]: when
    [block_channels] has more than four entries and these two differ,
    the constructed network rejects every batch of images.  All it can
    take is a single image (in_channels, H, W), without batch
    normalisation and with [block_channels[-1] = 1]; it then returns
    [block_channels[3]] rows of logits. *)
Theorem X9_extra_stage_width_rejected (rt : Runtime) (i nc : Z)
    (bc nb st : list Z) (bn : bool) (self : ClassifyingResNet.t) (x : Tensor) :
  ClassifyingResNet.__init__ i nc bc nb st bn = Some self →
  py_index bc 3 ≠ py_index bc (-1) →
  (length (shape x) = 4%nat → ClassifyingResNet.forward rt self x = None)
  ∧ (∀ y, ClassifyingResNet.forward rt self x = Some y →
       bn = false ∧ py_index bc (-1) = Some 1
       ∧ ∃ c3 H W, py_index bc 3 = Some c3
                   ∧ shape x = [i; H; W] ∧ shape y = [c3; nc]).
Proof.
  intros Hinit Hne.
  apply ResNet_init_inv in Hinit
    as (c0 & c1 & c2 & c3 & cl & n0 & n1 & n2 & n3 & s0 & s1 & s2 & s3
        & Hc3 & Hcl & _ & _ & _ & _ & _ & _ & ->).
  assert (∀ y, ClassifyingResNet.forward rt
                 (ClassifyingResNet.mk bn
                    (conv_bn (mkConv2d i i 7 2 3 (negb bn)) bn)
                    (mkMaxPool2d 3 2 1)
                    (ClassifyingResNet._make_layer bn i c0 n0 s0)
                    (ClassifyingResNet._make_layer bn c0 c1 n1 s1)
                    (ClassifyingResNet._make_layer bn c1 c2 n2 s2)
                    (ClassifyingResNet._make_layer bn c2 c3 n3 s3)
                    (1, 1) (mkLinear cl nc)) x = Some y →
               bn = false ∧ cl = 1
               ∧ ∃ H W, shape x = [i; H; W] ∧ shape y = [c3; nc]) as Hinv.
  { intros y Hy. apply ResNet_forward_inv in Hy
      as (H & W & _ & _ & [(N & _ & Heq & _)|(Hbn & Hx & -> & Hsy)]).
    - congruence.
    - split; [done|]. split; [done|]. by exists H, W. }
  split.
  - intros H4.
    destruct (ClassifyingResNet.forward rt _ x) as [y|] eqn:Hy; [exfalso|done].
    destruct (Hinv y eq_refl) as (_ & _ & H & W & Hx & _).
    rewrite Hx in H4. discriminate H4.
  - intros y Hy. destruct (Hinv y Hy) as (Hbn & -> & H & W & Hx & Hsy).
    split; [done|]. split; [done|]. by exists c3, H, W.
Qed.

Lemma X9_extra_stage_width_rejected_witness :
  ClassifyingResNet.forward (zero_runtime false)
    (ClassifyingResNet.mk false (conv_bn (mkConv2d 3 3 7 2 3 true) false)
       (mkMaxPool2d 3 2 1)
       (ClassifyingResNet._make_layer false 3 16 2 2)
       (ClassifyingResNet._make_layer false 16 32 2 1)
       (ClassifyingResNet._make_layer false 32 64 2 1)
       (ClassifyingResNet._make_layer false 64 128 2 1)
       (1, 1) (mkLinear 256 10))
    (zeros [2; 3; 96; 96]) = None.
Proof.
  refine (proj1 (X9_extra_stage_width_rejected (zero_runtime false) 3 10
                   [16; 32; 64; 128; 256] [2; 2; 2; 2] [2; 1; 1; 1] false _
                   (zeros [2; 3; 96; 96]) eq_refl _) eq_refl).
  vm_compute. discriminate.
Defined.

(** X10. Every block of a stage applies the stride of the stage: a stage
    with positive channel counts, built with [block_count] and stride
    [s], maps the extent H to
    [h -> (h-1)//s + 1] applied [max(1, block_count)] times, and
    changes the channels to [out_channels]. *)
Theorem X10_stage_downsampling (rt : Runtime) (bn : bool) (i o n s : Z)
    (x : Tensor) (N H W : Z) :
  1 ≤ i → 1 ≤ o → 1 ≤ s → norm_safe rt bn N →
  shape x = [N; i; H; W] → 1 ≤ H → 1 ≤ W →
  ∃ y,
    ClassifyingResNet.layer_forward rt
      (ClassifyingResNet._make_layer bn i o n s) x = Some y
    ∧ shape y = [N; o;
                 Nat.iter (Z.to_nat (Z.max 1 n)) (λ h, strided h s) H;
                 Nat.iter (Z.to_nat (Z.max 1 n)) (λ w, strided w s) W].
Proof.
  intros Hi Ho Hs Hsafe Hx HH HW.
  apply (layer_forward_exact rt bn i o n s x N H W); auto.
  apply norm_safe_ok; [done|by apply stage_extent_pos..].
Qed.

Lemma X10_stage_downsampling_witness :
  ∃ y,
    ClassifyingResNet.layer_forward (zero_runtime true)
      (ClassifyingResNet._make_layer true 3 16 2 2) (zeros [2; 3; 24; 24])
    = Some y
    ∧ shape y = [2; 16;
                 Nat.iter (Z.to_nat (Z.max 1 2)) (λ h, strided h 2) 24;
                 Nat.iter (Z.to_nat (Z.max 1 2)) (λ w, strided w 2) 24].
Proof.
  apply (X10_stage_downsampling (zero_runtime true) true 3 16 2 2
           (zeros [2; 3; 24; 24]) 2 24 24);
    [lia | lia | lia | right; right; lia | reflexivity | lia | lia].
Defined.

(** X11. Only the first four entries of [num_blocks] and of [strides]
    are read: the constructor builds the same network from lists that
    are cut after their fourth entry. *)
Theorem X11_later_entries_ignored (i nc : Z) (bc nb st : list Z) (bn : bool) :
  (4 ≤ length nb)%nat → (4 ≤ length st)%nat →
  ClassifyingResNet.__init__ i nc bc nb st bn
  = ClassifyingResNet.__init__ i nc bc (take 4 nb) (take 4 st) bn.
Proof.
  intros Hnb Hst.
  destruct nb as [|n0 [|n1 [|n2 [|n3 nr]]]]; cbn in Hnb; try lia.
  destruct st as [|s0 [|s1 [|s2 [|s3 sr]]]]; cbn in Hst; try lia.
  reflexivity.
Qed.

Lemma X11_later_entries_ignored_witness :
  ClassifyingResNet.__init__ 3 10 [16; 32; 64; 128] [2; 2; 2; 2; 9] [2; 1; 1; 1; 0]
    true
  = ClassifyingResNet.__init__ 3 10 [16; 32; 64; 128]
      (take 4 [2; 2; 2; 2; 9]) (take 4 [2; 1; 1; 1; 0]) true.
Proof.
  apply (X11_later_entries_ignored 3 10 [16; 32; 64; 128] [2; 2; 2; 2; 9]
           [2; 1; 1; 1; 0] true); cbn; lia.
Defined.

(** X12. For every [feature_channels >= 1] and every image [x],
    whatever its extent, [ClassGuidedUNet.forward] returns what the
    U-Net returns on [x] itself and on the conditioning tensor of shape
    (N, feature_channels, 12, 12) that holds the entries of the
    projection of the classifier output, in their order. *)
Theorem X12_forward_calls_unet (rt : Runtime)
    (classifier : Module (Tensor → option Tensor))
    (unet : Module (Tensor → Tensor → option Tensor)) (feature_channels : Z)
    (σ0 σ : Autograd) (N : Z) (x c : Tensor) :
  1 ≤ feature_channels →
  call classifier x = Some c →
  shape c = [N; 10] →
  fst (ClassGuidedUNet.forward rt
         (fst (ClassGuidedUNet.__init__ classifier unet feature_channels σ0))
         x σ)
  = call unet x
      (mkTensor [N; feature_channels; 12; 12]
         (linear_data rt (mkLinear 10 (feature_channels * 12 * 12)) c)).
Proof.
  intros Hf Hc Hsc.
  destruct (init_fields classifier unet feature_channels σ0) as (Hcl & Hun & Hfc).
  unfold ClassGuidedUNet.forward. cbn [fst]. rewrite Hcl, Hun, Hfc, Hc.
  cbn [mbind option_bind out_features].
  unfold linear. rewrite Hsc. cbn [reverse rev_append in_features out_features].
  rewrite decide_True by done. cbn [mbind option_bind].
  rewrite (view_projection feature_channels N) by done. reflexivity.
Qed.

Lemma X12_forward_calls_unet_witness :
  fst (ClassGuidedUNet.forward (zero_runtime true)
         (fst (ClassGuidedUNet.__init__
                 (ClassGuidedUNet.stub_classifier (zeros [3; 10]))
                 (mkModule [] (λ _ cond : Tensor, Some cond)) 4
                 (mkAutograd ∅ true)))
         (zeros [3; 1; 20; 30]) (mkAutograd ∅ false))
  = Some (mkTensor [3; 4; 12; 12]
            (linear_data (zero_runtime true) (mkLinear 10 (4 * 12 * 12))
               (zeros [3; 10]))).
Proof.
  apply (X12_forward_calls_unet (zero_runtime true)
           (ClassGuidedUNet.stub_classifier (zeros [3; 10]))
           (mkModule [] (λ _ cond : Tensor, Some cond)) 4
           (mkAutograd ∅ true) (mkAutograd ∅ false) 3
           (zeros [3; 1; 20; 30]) (zeros [3; 10]));
    [lia | reflexivity | reflexivity].
Defined.

(** X13. [ClassGuidedUNet.forward] returns nothing when the classifier
    raises, and nothing when the last dimension of the classifier
    output is not 10, the input width of the projection: the U-Net's
    result is never returned then, whatever the U-Net and
    [feature_channels]. *)
Theorem X13_forward_needs_ten_logits (rt : Runtime)
    (classifier : Module (Tensor → option Tensor))
    (unet : Module (Tensor → Tensor → option Tensor)) (feature_channels : Z)
    (σ0 σ : Autograd) (x : Tensor) :
  (call classifier x = None
   ∨ ∃ c, call classifier x = Some c ∧ list.last (shape c) ≠ Some 10) →
  fst (ClassGuidedUNet.forward rt
         (fst (ClassGuidedUNet.__init__ classifier unet feature_channels σ0))
         x σ) = None.
Proof.
  intros Hcls.
  destruct (init_fields classifier unet feature_channels σ0) as (Hcl & Hun & Hfc).
  unfold ClassGuidedUNet.forward. cbn [fst]. rewrite Hcl, Hun, Hfc.
  destruct Hcls as [->|(c & -> & Hlast)]; [done|].
  cbn [mbind option_bind].
  destruct (linear rt _ c) as [y|] eqn:Hy; [exfalso|done].
  apply linear_inv in Hy. done.
Qed.

Lemma X13_forward_needs_ten_logits_witness :
  fst (ClassGuidedUNet.forward (zero_runtime true)
         (fst (ClassGuidedUNet.__init__
                 (ClassGuidedUNet.stub_classifier (zeros [2; 1000]))
                 (ClassGuidedUNet.stub_unet 2) 32 (mkAutograd ∅ true)))
         (zeros [2; 3; 96; 96]) (mkAutograd ∅ true))
  = None.
Proof.
  apply (X13_forward_needs_ten_logits (zero_runtime true)
           (ClassGuidedUNet.stub_classifier (zeros [2; 1000]))
           (ClassGuidedUNet.stub_unet 2) 32 (mkAutograd ∅ true)
           (mkAutograd ∅ true) (zeros [2; 3; 96; 96])).
  right. exists (zeros [2; 1000]). split; [reflexivity|]. cbn. discriminate.
Defined.

(** X14. [ClassGuidedUNet.__init__], called with a [feature_channels]
    that is not negative, touches the flags of the classifier
    only: a parameter that exists when it is called ends with
    [requires_grad = False] if the classifier yields it and with the
    flag it had otherwise, so no existing parameter is ever switched
    on; and the gradient mode is left as it was. *)
Theorem X14_init_touches_only_classifier
    (classifier : Module (Tensor → option Tensor))
    (unet : Module (Tensor → Tensor → option Tensor)) (feature_channels : Z)
    (σ : Autograd) (p : param) (b : bool) :
  0 ≤ feature_channels →
  requires_grad σ !! p = Some b →
  requires_grad
    (snd (ClassGuidedUNet.__init__ classifier unet feature_channels σ)) !! p
  = Some (if decide (p ∈ parameters classifier) then false else b)
  ∧ grad_enabled
      (snd (ClassGuidedUNet.__init__ classifier unet feature_channels σ))
    = grad_enabled σ.
Proof.
  intros _ Hp. split.
  - destruct (init_requires_grad classifier unet feature_channels σ p) as [_ ->].
    case_decide; [done|].
    set (live := (list_to_set (parameters classifier)
                  ∪ list_to_set (parameters unet) : gset param)).
    pose proof (new_parameter_fresh live σ) as [_ Hw].
    pose proof (new_parameter_fresh live
                  (snd (ClassGuidedUNet.new_parameter live σ))) as [_ Hb].
    assert (requires_grad σ
              !! fst (ClassGuidedUNet.new_parameter live
                        (snd (ClassGuidedUNet.new_parameter live σ))) = None)
      as Hb'.
    { cbv zeta in Hb. cbn [ClassGuidedUNet.new_parameter snd requires_grad] in Hb.
      by apply lookup_insert_None in Hb as [Hb _]. }
    rewrite !decide_False; [done|..]; intros Heq; rewrite Heq in Hp.
    + by rewrite Hw in Hp.
    + by rewrite Hb' in Hp.
  - unfold ClassGuidedUNet.__init__.
    destruct (ClassGuidedUNet.new_parameter _ σ) as [weight σ1] eqn:E1.
    destruct (ClassGuidedUNet.new_parameter _ σ1) as [bias σ2] eqn:E2.
    cbn [snd]. rewrite freeze_all_grad_enabled.
    unfold ClassGuidedUNet.new_parameter in E1, E2.
    injection E2 as _ <-. injection E1 as _ <-. done.
Qed.

Lemma X14_init_touches_only_classifier_witness :
  let classifier := mkModule [1%positive] (λ x : Tensor, Some x) in
  let unet := mkModule [2%positive] (λ x _ : Tensor, Some x) in
  let σ := mkAutograd {[1%positive := true; 2%positive := true;
                        7%positive := false]} false in
  requires_grad (snd (ClassGuidedUNet.__init__ classifier unet 32 σ))
    !! 7%positive
  = Some (if decide (7%positive ∈ parameters classifier) then false else false)
  ∧ grad_enabled (snd (ClassGuidedUNet.__init__ classifier unet 32 σ))
    = grad_enabled σ.
Proof.
  cbv zeta.
  apply (X14_init_touches_only_classifier
           (mkModule [1%positive] (λ x : Tensor, Some x))
           (mkModule [2%positive] (λ x _ : Tensor, Some x)) 32
           (mkAutograd {[1%positive := true; 2%positive := true;
                         7%positive := false]} false) 7%positive false).
  - lia.
  - vm_compute. reflexivity.
Defined.

(** X15. A network with batch normalisation, in training mode, does
    not take a single image whose map the strides shrink to 1x1 by the
    end of the last stage: the last batch normalisation is left with
    one value per channel and [forward] returns nothing. *)
Theorem X15_single_value_per_channel_rejected (rt : Runtime) (i nc : Z)
    (bc nb st : list Z) (self : ClassifyingResNet.t) (x : Tensor) (H W : Z) :
  ClassifyingResNet.__init__ i nc bc nb st true = Some self →
  training rt = true →
  shape x = [1; i; H; W] →
  final_extent nb st H = 1 → final_extent nb st W = 1 →
  ClassifyingResNet.forward rt self x = None.
Proof.
  intros Hinit Htr Hx HH HW.
  apply ResNet_init_lists in Hinit
    as (c0 & c1 & c2 & c3 & cl & n0 & n1 & n2 & n3 & s0 & s1 & s2 & s3
        & _ & Hnb & Hst & ->).
  unfold final_extent in HH, HW. rewrite Hnb, Hst in HH, HW.
  destruct (ClassifyingResNet.forward rt _ x) as [y|] eqn:Hy; [exfalso|done].
  apply (ResNet_forward_norm_ok rt _ _ _ _ _ _ _ _ _ _ _ _ _ _ _ _ _ _
           (Some 1) H W) in Hy; [|done].
  destruct (Hy eq_refl) as (m & [= <-] & Hm).
  apply (Hm Htr). unfold final_extent. cbn [take]. rewrite HH, HW. done.
Qed.

Lemma X15_single_value_per_channel_rejected_witness :
  ClassifyingResNet.forward (zero_runtime true)
    (ClassifyingResNet.mk true (conv_bn (mkConv2d 3 3 7 2 3 false) true)
       (mkMaxPool2d 3 2 1)
       (ClassifyingResNet._make_layer true 3 16 2 2)
       (ClassifyingResNet._make_layer true 16 32 2 2)
       (ClassifyingResNet._make_layer true 32 64 2 2)
       (ClassifyingResNet._make_layer true 64 128 2 2)
       (1, 1) (mkLinear 128 10))
    (zeros [1; 3; 96; 96]) = None.
Proof.
  apply (X15_single_value_per_channel_rejected (zero_runtime true) 3 10
           [16; 32; 64; 128] [2; 2; 2; 2] [2; 2; 2; 2] _
           (zeros [1; 3; 96; 96]) 96 96);
    reflexivity.
Defined.
